(** * A state-vector quantum circuit simulator, embedded and verified

    The development follows the TypeScript sources of the simulator core:
    - [core/math/complex.ts], [core/math/gates.ts]: complex numbers and the
      gate catalogue;
    - [StateVectorEngine] (createState, calculateProbabilities, applyGate and
      its four paths, measure, sampleMeasurements);
    - [CircuitSimulator.runCircuit].

    JavaScript numbers that hold amplitudes and probabilities are IEEE-754
    binary64 values and are modelled by Rocq's primitive floats. Numbers that
    the code only uses as array indices, loop counters, qubit numbers and shot
    counts are integers and are modelled in [Z]; the 32-bit bitwise operators
    are written out with their wrap-around. Typed arrays and state objects
    live in a store and are passed by reference, since the engine hands the
    same state object back on one path and attaches a cache to it on another.
    [Math.random], [performance.now] and [console.warn] are the only contact
    with the environment and are threaded through the same store. *)

From Stdlib Require Import ZArith Floats Lia Bool.
From stdpp Require Import base option list list_numbers strings gmap.

#[local] Set Warnings "-inexact-float".
#[local] Open Scope Z_scope.

(** ** JavaScript 32-bit integer operators *)

Module Int32.

(** ToInt32: reduce modulo 2^32 into [-2^31, 2^31). *)
Definition wrap (z : Z) : Z := (z + 2 ^ 31) mod 2 ^ 32 - 2 ^ 31.

(** The shift count of [<<] and [>>] is taken modulo 32. *)
Definition shl (a b : Z) : Z := wrap (Z.shiftl (wrap a) (b mod 32)).
Definition shr (a b : Z) : Z := Z.shiftr (wrap a) (b mod 32).
Definition and (a b : Z) : Z := Z.land (wrap a) (wrap b).
Definition or (a b : Z) : Z := Z.lor (wrap a) (wrap b).
Definition xor (a b : Z) : Z := Z.lxor (wrap a) (wrap b).

End Int32.

Infix "<<" := Int32.shl (at level 35, no associativity) : Z_scope.
Infix ">>" := Int32.shr (at level 35, no associativity) : Z_scope.
Infix ".&" := Int32.and (at level 40, left associativity) : Z_scope.
Infix ".|" := Int32.or (at level 40, left associativity) : Z_scope.
Infix ".^" := Int32.xor (at level 40, left associativity) : Z_scope.

(** ** Numbers and typed arrays *)

(** [Float32Array] stores every written value rounded to binary32
    (round to nearest, ties to even); the stored value is again a binary64. *)
Definition fround (x : float) : float :=
  match Prim2SF x with
  | S754_finite s m e => SF2Prim (binary_round 24 128 s m e)
  | _ => x
  end.

(** The contents of a [Float64Array] or [Float32Array]. *)
Abbreviation TypedArray := (list float) (only parsing).

(** [a[i]] read as a number. An index outside the array reads [undefined],
    which every arithmetic operator, comparison and typed-array store that
    consumes it in this code turns into NaN. (One read is kept as it is, the
    probability stored with a new record of [sampleMeasurements]; that index
    is inside the array, see [recorded_probability_in_range].) *)
Definition rd (a : TypedArray) (i : Z) : float :=
  if i <? 0 then nan else default nan (a !! Z.to_nat i).

(** [a[i] = x]. A store outside a typed array is ignored. *)
Definition wr (a : TypedArray) (i : Z) (x : float) : TypedArray :=
  if i <? 0 then a else <[Z.to_nat i := x]> a.

(** [0 .. n-1], the index range of [for (let i = 0; i < n; i++)]. *)
Definition upto (n : Z) : list Z := seqZ 0 n.

(** ** Exceptions *)

Inductive JsError := RangeError | TypeError.

Inductive Result (A : Type) :=
  | Ok (a : A)
  | Throw (e : JsError).
Arguments Ok {A} a.
Arguments Throw {A} e.

#[global] Instance result_ret : MRet Result := @Ok.
#[global] Instance result_bind : MBind Result := fun A B f m =>
  match m with
  | Ok a => f a
  | Throw e => Throw e
  end.

(** A loop whose body may throw. *)
Fixpoint forM {A S : Type} (body : A -> S -> Result S) (xs : list A) (s : S)
  : Result S :=
  match xs with
  | [] => Ok s
  | x :: xs' => s' ← body x s; forM body xs' s'
  end.

(** ** Data model *)

(** Modelled from the spec: the type declarations of [core/types] are not
    among the sources; the records below carry the fields that the engine
    reads and writes, one module per TypeScript interface. *)
Module Complex.
Record t := mk { real : float; imag : float }.
End Complex.

Abbreviation Matrix := (list (list Complex.t)) (only parsing).

Module QuantumGate.
Record t := mk {
  name : string;
  matrix : Matrix;
  symbol : string;
  description : string;
  qubits : Z;
}.
End QuantumGate.

Module CircuitOperation.
Record t := mk {
  gate : QuantumGate.t;
  targets : list Z;
  controls : option (list Z);
  params : option (list float);
}.
End CircuitOperation.

(** References into the store. *)
Abbreviation ref := nat (only parsing).

Module QuantumState.
Record t := mk {
  qubits : Z;
  vector : ref;
  probabilities : option ref;
}.
End QuantumState.

Module MeasurementResult.
Record t := mk {
  state : string;
  probability : float;
  frequency : option float;
}.
End MeasurementResult.

Module Measurement.
Record t := mk { qubit : Z; classical : Z }.
End Measurement.

Module QuantumCircuit.
Record t := mk {
  id : string;
  numQubits : Z;
  operations : list CircuitOperation.t;
  measurements : list Measurement.t;
}.
End QuantumCircuit.

Module SimulationResult.
Record t := mk {
  circuitId : string;
  finalState : ref;
  measurements : gmap string MeasurementResult.t;
  executionTime : float;
}.
End SimulationResult.

(** ** The store and the environment *)

Record World := {
  arrays : list TypedArray;        (* typed arrays, in allocation order *)
  objects : list QuantumState.t;   (* state objects, in allocation order *)
  console : list string;           (* lines written by console.warn *)
  draws : nat -> float;            (* the values Math.random will return *)
  drawn : nat;                     (* how many of them were consumed *)
  clock : nat -> float;            (* the values performance.now will return *)
  ticks : nat;                     (* how many of them were consumed *)
}.

Definition M (A : Type) : Type := World -> Result (A * World).

#[global] Instance M_ret : MRet M := fun A a w => Ok (a, w).
#[global] Instance M_bind : MBind M := fun A B f m w =>
  match m w with
  | Ok (a, w') => f a w'
  | Throw e => Throw e
  end.

Definition lift {A} (r : Result A) : M A := fun w =>
  match r with
  | Ok a => Ok (a, w)
  | Throw e => Throw e
  end.

Definition with_arrays (f : list TypedArray -> list TypedArray) (w : World) : World :=
  {| arrays := f (arrays w); objects := objects w; console := console w;
     draws := draws w; drawn := drawn w; clock := clock w; ticks := ticks w |}.

Definition with_objects (f : list QuantumState.t -> list QuantumState.t) (w : World)
  : World :=
  {| arrays := arrays w; objects := f (objects w); console := console w;
     draws := draws w; drawn := drawn w; clock := clock w; ticks := ticks w |}.

(** Handing a freshly built typed array to the store. *)
Definition store_array (a : TypedArray) (w : World) : World :=
  with_arrays (fun l => l ++ [a]) w.

Definition new_array (a : TypedArray) : M ref := fun w =>
  Ok (length (arrays w), store_array a w).

(** [new Float64Array(n)] and [new Float32Array(n)]: [n] zeros; a negative
    length is a RangeError. *)
Definition zeros (n : Z) : Result TypedArray :=
  if n <? 0 then Throw RangeError else Ok (replicate (Z.to_nat n) 0%float).

(** Reading through a reference. A reference that designates nothing stands
    for [undefined], and reading a property of it is a TypeError. *)
Definition get_array (r : ref) : M TypedArray := fun w =>
  match arrays w !! r with
  | Some a => Ok (a, w)
  | None => Throw TypeError
  end.

Definition store_state (o : QuantumState.t) (w : World) : World :=
  with_objects (fun l => l ++ [o]) w.

Definition new_state (o : QuantumState.t) : M ref := fun w =>
  Ok (length (objects w), store_state o w).

Definition get_state (r : ref) : M QuantumState.t := fun w =>
  match objects w !! r with
  | Some o => Ok (o, w)
  | None => Throw TypeError
  end.

(** [state.probabilities = p] *)
Definition set_probabilities (r : ref) (p : ref) : M unit := fun w =>
  match objects w !! r with
  | Some o =>
      Ok (tt, with_objects
                (fun l => <[r := QuantumState.mk (QuantumState.qubits o)
                                   (QuantumState.vector o) (Some p)]> l) w)
  | None => Throw TypeError
  end.

Definition console_warn (line : string) : M unit := fun w =>
  Ok (tt, {| arrays := arrays w; objects := objects w;
             console := console w ++ [line];
             draws := draws w; drawn := drawn w;
             clock := clock w; ticks := ticks w |}).

Definition Math_random : M float := fun w =>
  Ok (draws w (drawn w),
      {| arrays := arrays w; objects := objects w; console := console w;
         draws := draws w; drawn := S (drawn w);
         clock := clock w; ticks := ticks w |}).

Definition performance_now : M float := fun w =>
  Ok (clock w (ticks w),
      {| arrays := arrays w; objects := objects w; console := console w;
         draws := draws w; drawn := drawn w;
         clock := clock w; ticks := S (ticks w) |}).

(** A loop in the store monad. *)
Fixpoint forW {A S : Type} (body : A -> S -> M S) (xs : list A) (s : S) : M S :=
  match xs with
  | [] => mret s
  | x :: xs' => s' ← body x s; forW body xs' s'
  end.

(** ** Complex arithmetic ([core/math/complex.ts]) *)

Module complex.

Definition create (real imag : float) : Complex.t := Complex.mk real imag.

Definition add (a b : Complex.t) : Complex.t :=
  Complex.mk (Complex.real a + Complex.real b) (Complex.imag a + Complex.imag b).

Definition multiply (a b : Complex.t) : Complex.t :=
  Complex.mk
    (Complex.real a * Complex.real b - Complex.imag a * Complex.imag b)
    (Complex.real a * Complex.imag b + Complex.imag a * Complex.real b).

Definition subtract (a b : Complex.t) : Complex.t :=
  Complex.mk (Complex.real a - Complex.real b) (Complex.imag a - Complex.imag b).

Definition scale (a : Complex.t) (scalar : float) : Complex.t :=
  Complex.mk (Complex.real a * scalar) (Complex.imag a * scalar).

Definition conjugate (a : Complex.t) : Complex.t :=
  Complex.mk (Complex.real a) (- Complex.imag a).

Definition magSquared (a : Complex.t) : float :=
  (Complex.real a * Complex.real a + Complex.imag a * Complex.imag a)%float.

Definition magnitude (a : Complex.t) : float := sqrt (magSquared a).

End complex.

(** [createComplexMatrix(rows, cols)]: all entries 0+0i. *)
Definition createComplexMatrix (rows cols : nat) : Matrix :=
  replicate rows (replicate cols (complex.create 0 0)).

(** ** The gate catalogue ([core/math/gates.ts])

    The fixed gates. The parametrised constructors (rotations, phase, U)
    compute their entries with [Math.cos] and [Math.sin] and all build
    arity-1 gates; no statement below depends on their entries. *)

Definition createGate (name : string) (matrix : Matrix) (symbol description : string)
    (qubits : option Z) : QuantumGate.t :=
  QuantumGate.mk name matrix symbol description (default 1 qubits).

Definition identity : QuantumGate.t :=
  createGate "identity"
    [ [complex.create 1 0; complex.create 0 0];
      [complex.create 0 0; complex.create 1 0] ]
    "I" "Identity gate - leaves the qubit state unchanged" None.

Definition pauliX : QuantumGate.t :=
  createGate "pauliX"
    [ [complex.create 0 0; complex.create 1 0];
      [complex.create 1 0; complex.create 0 0] ]
    "X" "Pauli-X gate - flips the qubit state (quantum NOT gate)" None.

Definition pauliY : QuantumGate.t :=
  createGate "pauliY"
    [ [complex.create 0 0; complex.create 0 (-1)];
      [complex.create 0 1; complex.create 0 0] ]
    "Y" "Pauli-Y gate - rotates the qubit state around the Y-axis of the Bloch sphere"
    None.

Definition pauliZ : QuantumGate.t :=
  createGate "pauliZ"
    [ [complex.create 1 0; complex.create 0 0];
      [complex.create 0 0; complex.create (-1) 0] ]
    "Z" "Pauli-Z gate - flips the phase of the |1⟩ state" None.

Definition hadamard : QuantumGate.t :=
  createGate "hadamard"
    [ [complex.create (1 / sqrt 2) 0; complex.create (1 / sqrt 2) 0];
      [complex.create (1 / sqrt 2) 0; complex.create (-1 / sqrt 2) 0] ]
    "H"
    "Hadamard gate - creates superposition by rotating the qubit state equally between |0⟩ and |1⟩"
    None.

Definition sGate : QuantumGate.t :=
  createGate "sGate"
    [ [complex.create 1 0; complex.create 0 0];
      [complex.create 0 0; complex.create 0 1] ]
    "S" "S gate (phase gate) - rotates the qubit state by 90° around the Z-axis" None.

Definition tGate : QuantumGate.t :=
  createGate "tGate"
    [ [complex.create 1 0; complex.create 0 0];
      [complex.create 0 0; complex.create (1 / sqrt 2) (1 / sqrt 2)] ]
    "T" "T gate - rotates the qubit state by 45° around the Z-axis" None.

Definition cnot : QuantumGate.t :=
  createGate "cnot"
    [ [complex.create 1 0; complex.create 0 0; complex.create 0 0; complex.create 0 0];
      [complex.create 0 0; complex.create 1 0; complex.create 0 0; complex.create 0 0];
      [complex.create 0 0; complex.create 0 0; complex.create 0 0; complex.create 1 0];
      [complex.create 0 0; complex.create 0 0; complex.create 1 0; complex.create 0 0] ]
    "CNOT" "Controlled-NOT gate - flips the target qubit if the control qubit is |1⟩"
    (Some 2).

Definition swap : QuantumGate.t :=
  createGate "swap"
    [ [complex.create 1 0; complex.create 0 0; complex.create 0 0; complex.create 0 0];
      [complex.create 0 0; complex.create 0 0; complex.create 1 0; complex.create 0 0];
      [complex.create 0 0; complex.create 1 0; complex.create 0 0; complex.create 0 0];
      [complex.create 0 0; complex.create 0 0; complex.create 0 0; complex.create 1 0] ]
    "SWAP" "SWAP gate - exchanges the state of two qubits" (Some 2).

(** [matrix[i][j] = z] for a position inside the matrix (the catalogue
    writes no other). *)
Definition set_entry (m : Matrix) (i j : nat) (z : Complex.t) : Matrix :=
  match m !! i with
  | Some row => <[i := <[j := z]> row]> m
  | None => m
  end.

Definition toffoli : QuantumGate.t :=
  createGate "toffoli"
    (foldl (fun matrix i =>
              if (i =? 6)%nat then
                set_entry (set_entry matrix i 7 (complex.create 1 0))
                          i i (complex.create 0 0)
              else if (i =? 7)%nat then
                set_entry (set_entry matrix i 6 (complex.create 1 0))
                          i i (complex.create 0 0)
              else
                set_entry matrix i i (complex.create 1 0))
           (createComplexMatrix 8 8) (seq 0 8))
    "CCNOT" "Toffoli gate (CCNOT) - flips the target qubit if both control qubits are |1⟩"
    (Some 3).

(** ** StateVectorEngine *)

(** [matrix[r][c]], about to have its [.real] read: a missing row or entry
    is [undefined] and the property access throws. *)
Definition entry (matrix : Matrix) (r c : Z) : Result Complex.t :=
  match matrix !! Z.to_nat r with
  | Some row =>
      match row !! Z.to_nat c with
      | Some z => Ok z
      | None => Throw TypeError
      end
  | None => Throw TypeError
  end.

(** An element of a plain array used as a shift count: a missing element is
    [undefined], which ToInt32 maps to 0. *)
Definition as_int32 (x : option Z) : Z := default 0 x.

Definition createState (qubits : Z) : M ref :=
  let dim := 1 << qubits in
  vector ← lift (zeros (dim * 2));
  let vector := wr vector 0 1 in
  v ← new_array vector;
  new_state (QuantumState.mk qubits v None).

(** The loop of [calculateProbabilities], writing into a [Float32Array]. *)
Definition probabilitiesOf (vec : TypedArray) (dim : Z) (probabilities : TypedArray)
  : TypedArray :=
  foldl (fun probabilities i =>
           let realIdx := i * 2 in
           let imagIdx := realIdx + 1 in
           let real := rd vec realIdx in
           let imag := rd vec imagIdx in
           wr probabilities i (fround (real * real + imag * imag)))
        probabilities (upto dim).

Definition calculateProbabilities (state : ref) : M ref :=
  st ← get_state state;
  let dim := 1 << QuantumState.qubits st in
  probabilities ← lift (zeros dim);
  vec ← get_array (QuantumState.vector st);
  new_array (probabilitiesOf vec dim probabilities).

Definition applySingleQubitGate_step (matrix : Matrix) (targetQubit : Z)
    (vec : TypedArray) (i : Z) (result : TypedArray) : Result TypedArray :=
  let targetBit := (i >> targetQubit) .& 1 in
  let flipped := i .^ (1 << targetQubit) in
  let i0RealIdx := i * 2 in
  let i0ImagIdx := i0RealIdx + 1 in
  let i1RealIdx := flipped * 2 in
  let i1ImagIdx := i1RealIdx + 1 in
  if targetBit =? 0 then
    m00 ← entry matrix 0 0;
    m01 ← entry matrix 0 1;
    let curReal := rd vec i0RealIdx in
    let curImag := rd vec i0ImagIdx in
    let flipReal := rd vec i1RealIdx in
    let flipImag := rd vec i1ImagIdx in
    let term1Real := (Complex.real m00 * curReal - Complex.imag m00 * curImag)%float in
    let term1Imag := (Complex.real m00 * curImag + Complex.imag m00 * curReal)%float in
    let term2Real := (Complex.real m01 * flipReal - Complex.imag m01 * flipImag)%float in
    let term2Imag := (Complex.real m01 * flipImag + Complex.imag m01 * flipReal)%float in
    let result := wr result i0RealIdx (term1Real + term2Real) in
    Ok (wr result i0ImagIdx (term1Imag + term2Imag))
  else
    m10 ← entry matrix 1 0;
    m11 ← entry matrix 1 1;
    let curReal := rd vec i0RealIdx in
    let curImag := rd vec i0ImagIdx in
    let flipReal := rd vec i1RealIdx in
    let flipImag := rd vec i1ImagIdx in
    let term1Real := (Complex.real m10 * flipReal - Complex.imag m10 * flipImag)%float in
    let term1Imag := (Complex.real m10 * flipImag + Complex.imag m10 * flipReal)%float in
    let term2Real := (Complex.real m11 * curReal - Complex.imag m11 * curImag)%float in
    let term2Imag := (Complex.real m11 * curImag + Complex.imag m11 * curReal)%float in
    let result := wr result i0RealIdx (term1Real + term2Real) in
    Ok (wr result i0ImagIdx (term1Imag + term2Imag)).

Definition applySingleQubitGate (state : ref) (matrix : Matrix) (targetQubit : Z)
  : M ref :=
  st ← get_state state;
  let qubits := QuantumState.qubits st in
  let dim := 1 << qubits in
  vec ← get_array (QuantumState.vector st);
  let result := replicate (length vec) 0%float in
  result ← lift (forM (applySingleQubitGate_step matrix targetQubit vec) (upto dim) result);
  v ← new_array result;
  new_state (QuantumState.mk qubits v None).

Definition applyCNOT_step (controlQubit targetQubit : Z) (result : TypedArray) (i : Z)
  : TypedArray :=
  let controlBit := (i >> controlQubit) .& 1 in
  if controlBit =? 1 then
    let flipped := i .^ (1 << targetQubit) in
    let iRealIdx := i * 2 in
    let iImagIdx := iRealIdx + 1 in
    let flippedRealIdx := flipped * 2 in
    let flippedImagIdx := flippedRealIdx + 1 in
    let tempReal := rd result iRealIdx in
    let tempImag := rd result iImagIdx in
    let result := wr result iRealIdx (rd result flippedRealIdx) in
    let result := wr result iImagIdx (rd result flippedImagIdx) in
    let result := wr result flippedRealIdx tempReal in
    wr result flippedImagIdx tempImag
  else result.

Definition applyCNOT (state : ref) (controlQubit targetQubit : Z) : M ref :=
  st ← get_state state;
  let qubits := QuantumState.qubits st in
  let dim := 1 << qubits in
  vec ← get_array (QuantumState.vector st);
  (* new Float64Array(state.vector): a copy of the caller's array *)
  let result := vec in
  let result := foldl (applyCNOT_step controlQubit targetQubit) result (upto dim) in
  v ← new_array result;
  new_state (QuantumState.mk qubits v None).

Definition applyTwoQubitGate_inner (matrix : Matrix) (qubit1 qubit2 : Z)
    (vec : TypedArray) (i bit1 bit2 matrixIdx : Z) (j : Z) (result : TypedArray)
  : Result TypedArray :=
  let newBit1 := (j >> 1) .& 1 in
  let newBit2 := j .& 1 in
  let newState := i in
  let newState := if negb (bit1 =? newBit1) then newState .^ (1 << qubit1) else newState in
  let newState := if negb (bit2 =? newBit2) then newState .^ (1 << qubit2) else newState in
  matrixElement ← entry matrix j matrixIdx;
  let inRealIdx := i * 2 in
  let inImagIdx := inRealIdx + 1 in
  let inReal := rd vec inRealIdx in
  let inImag := rd vec inImagIdx in
  let termReal :=
    (Complex.real matrixElement * inReal - Complex.imag matrixElement * inImag)%float in
  let termImag :=
    (Complex.real matrixElement * inImag + Complex.imag matrixElement * inReal)%float in
  let outRealIdx := newState * 2 in
  let outImagIdx := outRealIdx + 1 in
  let result := wr result outRealIdx (rd result outRealIdx + termReal) in
  Ok (wr result outImagIdx (rd result outImagIdx + termImag)).

Definition applyTwoQubitGate_step (matrix : Matrix) (qubit1 qubit2 : Z)
    (vec : TypedArray) (i : Z) (result : TypedArray) : Result TypedArray :=
  let bit1 := (i >> qubit1) .& 1 in
  let bit2 := (i >> qubit2) .& 1 in
  let matrixIdx := (bit1 << 1) .| bit2 in
  forM (applyTwoQubitGate_inner matrix qubit1 qubit2 vec i bit1 bit2 matrixIdx)
       (upto 4) result.

Definition applyTwoQubitGate (state : ref) (matrix : Matrix) (qubit1 qubit2 : Z)
  : M ref :=
  st ← get_state state;
  let qubits := QuantumState.qubits st in
  let dim := 1 << qubits in
  result ← lift (zeros (dim * 2));
  vec ← get_array (QuantumState.vector st);
  result ← lift (forM (applyTwoQubitGate_step matrix qubit1 qubit2 vec) (upto dim) result);
  v ← new_array result;
  new_state (QuantumState.mk qubits v None).

Definition applyGeneralGate (state : ref) (operation : CircuitOperation.t) : M ref :=
  console_warn ("Using general gate application for "
                +:+ QuantumGate.name (CircuitOperation.gate operation));;
  mret state.

(** The three tests of [applyGate], in the order the code tries them. *)
Definition singleQubitCase (operation : CircuitOperation.t) : bool :=
  let gate := CircuitOperation.gate operation in
  let targets := CircuitOperation.targets operation in
  let controls := default [] (CircuitOperation.controls operation) in
  negb (Z.of_nat (length targets) =? QuantumGate.qubits gate)
  && (QuantumGate.qubits gate =? 1)
  && (Z.of_nat (length controls) =? 0).

Definition twoQubitCase (operation : CircuitOperation.t) : bool :=
  let gate := CircuitOperation.gate operation in
  let targets := CircuitOperation.targets operation in
  let controls := default [] (CircuitOperation.controls operation) in
  (QuantumGate.qubits gate =? 2)
  && (Z.of_nat (length targets) =? 2)
  && (Z.of_nat (length controls) =? 0).

Definition cnotCase (operation : CircuitOperation.t) : bool :=
  let gate := CircuitOperation.gate operation in
  let targets := CircuitOperation.targets operation in
  let controls := default [] (CircuitOperation.controls operation) in
  String.eqb (QuantumGate.name gate) "cnot"
  && (Z.of_nat (length targets) =? 1)
  && (Z.of_nat (length controls) =? 1).

Definition applyGate (state : ref) (operation : CircuitOperation.t) : M ref :=
  let gate := CircuitOperation.gate operation in
  let targets := CircuitOperation.targets operation in
  let controls := default [] (CircuitOperation.controls operation) in
  if singleQubitCase operation then
    applySingleQubitGate state (QuantumGate.matrix gate) (as_int32 (targets !! 0%nat))
  else if twoQubitCase operation then
    applyTwoQubitGate state (QuantumGate.matrix gate)
      (as_int32 (targets !! 0%nat)) (as_int32 (targets !! 1%nat))
  else if cnotCase operation then
    applyCNOT state (as_int32 (controls !! 0%nat)) (as_int32 (targets !! 0%nat))
  else
    applyGeneralGate state operation.

(** The first loop of [measure]: the probability of reading 1. *)
Definition probabilityOfOne (probabilities : TypedArray) (qubit dim : Z) : float :=
  foldl (fun prob1 i =>
           let bitValue := (i >> qubit) .& 1 in
           if bitValue =? 1 then (prob1 + rd probabilities i)%float else prob1)
        0%float (upto dim).

(** The second loop of [measure]: copy the amplitudes that agree with the
    outcome and add up their squared magnitudes. *)
Definition collapse_step (vec : TypedArray) (qubit outcome : Z)
    (acc : list float * float) (i : Z) : list float * float :=
  let '(newVector, normalizationFactor) := acc in
  let bitValue := (i >> qubit) .& 1 in
  if bitValue =? outcome then
    let realIdx := i * 2 in
    let imagIdx := realIdx + 1 in
    let real := rd vec realIdx in
    let imag := rd vec imagIdx in
    let newVector := wr newVector realIdx real in
    let newVector := wr newVector imagIdx imag in
    (newVector, (normalizationFactor + (real * real + imag * imag))%float)
  else (newVector, normalizationFactor).

Definition collapse (vec : TypedArray) (qubit outcome dim : Z) (newVector : TypedArray)
  : list float * float :=
  foldl (collapse_step vec qubit outcome) (newVector, 0%float) (upto dim).

Definition measure (state : ref) (qubit : Z) : M (ref * bool) :=
  st ← get_state state;
  cached ← match QuantumState.probabilities st with
            | Some p => mret p
            | None =>
                p ← calculateProbabilities state;
                set_probabilities state p;;
                mret p
            end;
  let dim := 1 << QuantumState.qubits st in
  probabilities ← get_array cached;
  let prob1 := probabilityOfOne probabilities qubit dim in
  random ← Math_random;
  let outcome := if (random <? prob1)%float then 1 else 0 in
  let measured := outcome =? 1 in
  newVector ← lift (zeros (dim * 2));
  vec ← get_array (QuantumState.vector st);
  let '(newVector, normalizationFactor) := collapse vec qubit outcome dim newVector in
  let normalizationFactor := sqrt normalizationFactor in
  (* for (i < newVector.length) newVector[i] /= normalizationFactor *)
  let newVector := (fun x => x / normalizationFactor)%float <$> newVector in
  v ← new_array newVector;
  s ← new_state (QuantumState.mk (QuantumState.qubits st) v None);
  mret (s, measured).

(** [n.toString(2)] for an integer. *)
Fixpoint binary_digits (p : positive) : string :=
  match p with
  | xH => "1"
  | xO p' => binary_digits p' +:+ "0"
  | xI p' => binary_digits p' +:+ "1"
  end.

Definition toString2 (n : Z) : string :=
  match n with
  | Z0 => "0"
  | Zpos p => binary_digits p
  | Zneg p => "-" +:+ binary_digits p
  end.

(** [s.padStart(targetLength, '0')] *)
Definition padStart0 (s : string) (targetLength : Z) : string :=
  String.concat "" (replicate (Z.to_nat (targetLength - Z.of_nat (String.length s))) "0")
  +:+ s.

(** An integer as a JavaScript number (exact below 2^53). *)
Definition number (z : Z) : float := SF2Prim (binary_normalize prec emax z 0 false).

(** [x || 0] on an optional number: [undefined], 0, -0 and NaN are falsy. *)
Definition or_zero (x : option float) : float :=
  match x with
  | Some f => if (f =? 0)%float || is_nan f then 0%float else f
  | None => 0%float
  end.

(** The binary search of one shot. The loop is bounded by the width of the
    interval; [None] only when [fuel] is too small for it. *)
Fixpoint binarySearch (fuel : nat) (random : float) (cumulativeProbs : TypedArray)
    (low high outcome : Z) : option Z :=
  if low <=? high then
    match fuel with
    | O => None
    | S fuel' =>
        let mid := (low + high) / 2 in
        if (random <? rd cumulativeProbs mid)%float then
          binarySearch fuel' random cumulativeProbs low (mid - 1) mid
        else
          binarySearch fuel' random cumulativeProbs (mid + 1) high outcome
    end
  else Some outcome.

Definition findOutcome (random : float) (cumulativeProbs : TypedArray) (dim : Z) : Z :=
  default 0 (binarySearch (Z.to_nat dim) random cumulativeProbs 0 (dim - 1) 0).

Definition recordShot (qubits : Z) (probabilities : TypedArray) (outcome : Z)
    (results : gmap string MeasurementResult.t) : gmap string MeasurementResult.t :=
  let bitString := padStart0 (toString2 outcome) qubits in
  match results !! bitString with
  | Some found =>
      <[bitString :=
          MeasurementResult.mk
            (MeasurementResult.state found)
            (MeasurementResult.probability found)
            (Some (or_zero (MeasurementResult.frequency found) + 1)%float)]> results
  | None =>
      <[bitString :=
          MeasurementResult.mk bitString (rd probabilities outcome) (Some 1%float)]>
        results
  end.

(** [results[key].frequency = results[key].frequency / shots] *)
Definition toFrequency (shots : Z) (found : MeasurementResult.t) : MeasurementResult.t :=
  MeasurementResult.mk
    (MeasurementResult.state found)
    (MeasurementResult.probability found)
    (Some (match MeasurementResult.frequency found with
           | Some f => f / number shots
           | None => nan
           end)%float).

(** The prefix sums of [sampleMeasurements], written into [cumulativeProbs]. *)
Definition cumulativeOf (probabilities : TypedArray) (dim : Z) (cumulativeProbs : TypedArray)
  : TypedArray :=
  let cumulativeProbs := wr cumulativeProbs 0 (rd probabilities 0) in
  foldl (fun cumulativeProbs i =>
           wr cumulativeProbs i (rd cumulativeProbs (i - 1) + rd probabilities i)%float)
        cumulativeProbs (seqZ 1 (dim - 1)).

Definition sampleMeasurements (state : ref) (shots : Z)
  : M (gmap string MeasurementResult.t) :=
  p ← calculateProbabilities state;
  probabilities ← get_array p;
  st ← get_state state;
  let dim := 1 << QuantumState.qubits st in
  cumulativeProbs ← lift (zeros dim);
  let cumulativeProbs := cumulativeOf probabilities dim cumulativeProbs in
  results ← forW (fun (shot : Z) results =>
                    random ← Math_random;
                    let outcome := findOutcome random cumulativeProbs dim in
                    mret (recordShot (QuantumState.qubits st) probabilities outcome results))
                 (upto shots) ∅;
  mret (toFrequency shots <$> results).

(** ** CircuitSimulator *)

(** The plain array [classical] of [runCircuit] holds the numbers 0 and 1;
    [None] is a hole left by a store past the end. *)
Definition BitArray := list (option bool).

(** [a[i] = b] on a plain array: a store past the end extends the array with
    holes; an index that is negative or above 2^32 - 2 names an ordinary
    property and leaves the elements alone. *)
Definition bit_store (a : BitArray) (i : Z) (b : bool) : BitArray :=
  if (i <? 0) || (2 ^ 32 - 1 <=? i) then a
  else if i <? Z.of_nat (length a) then <[Z.to_nat i := Some b]> a
  else a ++ replicate (Z.to_nat i - length a) None ++ [Some b].

(** [a.join('')] *)
Definition bit_join (a : BitArray) : string :=
  String.concat ""
    ((fun e => match e with
               | Some true => "1"
               | Some false => "0"
               | None => ""
               end) <$> a).

(** The [shots === 1] branch of [runCircuit]. *)
Definition singleShot (measurements : list Measurement.t) (state : ref)
  : M (ref * gmap string MeasurementResult.t) :=
  let classical : BitArray := replicate (length measurements) (Some false) in
  '(state, classical) ←
    forW (fun m '(state, classical) =>
            '(newState, result) ← measure state (Measurement.qubit m);
            mret (newState, bit_store classical (Measurement.classical m) result))
         measurements (state, classical);
  let bitString := bit_join classical in
  mret (state,
        <[bitString := MeasurementResult.mk bitString 1%float (Some 1%float)]> ∅).

(** The first part of [runCircuit]: the initial state, then every operation
    in order. *)
Definition prepare (circuit : QuantumCircuit.t) : M ref :=
  state ← createState (QuantumCircuit.numQubits circuit);
  forW (fun operation state => applyGate state operation)
       (QuantumCircuit.operations circuit) state.

Definition runCircuit (circuit : QuantumCircuit.t) (shots : option Z)
  : M SimulationResult.t :=
  let shots := default 1024 shots in
  startTime ← performance_now;
  state ← prepare circuit;
  '(state, measurements) ←
    (if shots =? 0 then mret (state, ∅)
     else if shots =? 1 then singleShot (QuantumCircuit.measurements circuit) state
     else ms ← sampleMeasurements state shots; mret (state, ms));
  endTime ← performance_now;
  mret (SimulationResult.mk (QuantumCircuit.id circuit) state measurements
                            (endTime - startTime)%float).

Definition getProbabilities (result : SimulationResult.t) : M ref :=
  calculateProbabilities (SimulationResult.finalState result).

(** * Vocabulary of the statements

    Observations of the store, the shapes of operation the circuit editor
    builds, the notions the statements below are phrased with, and the
    concrete worlds they are instantiated on. *)

(** The amplitude buffer a state reference designates in a world. *)
Definition amplitudes (state : ref) (w : World) : option TypedArray :=
  st ← objects w !! state; arrays w !! QuantumState.vector st.

(** [w'] keeps every typed array and every state object of [w] as it was. *)
Definition preserves (w w' : World) : Prop :=
  (forall r a, arrays w !! r = Some a -> arrays w' !! r = Some a) /\
  (forall r o, objects w !! r = Some o -> objects w' !! r = Some o).

(** The state object and typed array a gate application allocates. *)
Definition fresh_state (qubits : Z) (a : TypedArray) (w : World) : World :=
  store_state (QuantumState.mk qubits (length (arrays w)) None) (store_array a w).

(** The operation shapes the circuit editor produces. *)
Definition onQubit (gate : QuantumGate.t) (target : Z) : CircuitOperation.t :=
  CircuitOperation.mk gate [target] None None.

Definition controlled (gate : QuantumGate.t) (control target : Z) : CircuitOperation.t :=
  CircuitOperation.mk gate [target] (Some [control]) None.

(** A world with a given store, an empty console and given random draws. *)
Definition quiet (arrays : list TypedArray) (objects : list QuantumState.t)
    (draws : nat -> float) : World :=
  {| arrays := arrays; objects := objects; console := [];
     draws := draws; drawn := 0; clock := fun _ => 0%float; ticks := 0 |}.

(** A world that holds the single two-qubit state |10>: amplitude 1 at the
    basis index whose bit 0 (the control) is set. *)
Definition world_10 : World :=
  quiet [[0; 0; 1; 0; 0; 0; 0; 0]%float] [QuantumState.mk 2 0 None] (fun _ => 0%float).

(** The three-qubit state |000> and the Toffoli operation. *)
Definition world_000 : World :=
  quiet [[1; 0; 0; 0; 0; 0; 0; 0; 0; 0; 0; 0; 0; 0; 0; 0]%float]
        [QuantumState.mk 3 0 None] (fun _ => 0%float).

(** A normalised two-qubit state whose qubit 0 is 1 with certainty:
    amplitude sqrt(0.1) at index 1 and sqrt(0.9) at index 3. The two
    probabilities, rounded to binary32 by the [Float32Array], add up to
    0.99999997764825821, and the draw 1 - 2^-27 falls above that sum. *)
Definition world_rounding_gap : World :=
  quiet [[0; 0; sqrt 0.1; 0; 0; 0; sqrt 0.9; 0]%float]
        [QuantumState.mk 2 0 None]
        (fun _ => (1 - 0x1p-27)%float).

(** The key of basis index 0: [qubits] zeros (one when [qubits] is less). *)
Definition all_zeros (qubits : Z) : string :=
  String.concat "" (replicate (Z.to_nat (Z.max 1 qubits)) "0").

(** The cumulative array of the state with probabilities 0.1 and 0.9 on
    indices 1 and 3: its last entry is 0.99999997764825821, and the draw
    1 - 2^-27 is above every entry. *)
Definition gap_probabilities : list float :=
  probabilitiesOf [0; 0; sqrt 0.1; 0; 0; 0; sqrt 0.9; 0]%float 4 (replicate 4 0%float).

Definition gap_cumulative : list float :=
  cumulativeOf gap_probabilities 4 (replicate 4 0%float).

(** The state [measure] returns for a given outcome: the collapsed buffer,
    every entry divided by the square root of the retained mass. *)
Definition retainedMass (vec : TypedArray) (qubit outcome dim : Z) : float :=
  (collapse vec qubit outcome dim (replicate (Z.to_nat (dim * 2)) 0%float)).2.

Definition collapsed (vec : TypedArray) (qubit outcome dim : Z) : TypedArray :=
  (fun x => x / sqrt (retainedMass vec qubit outcome dim))%float
    <$> (collapse vec qubit outcome dim (replicate (Z.to_nat (dim * 2)) 0%float)).1.

(** A state reference is well formed when it designates a state object
    whose amplitude buffer (and cache, if any) exists and whose dimension
    [1 << qubits] is not negative. *)
Definition well_formed (state : ref) (w : World) : Prop :=
  exists st vec,
    objects w !! state = Some st /\
    arrays w !! QuantumState.vector st = Some vec /\
    (forall p, QuantumState.probabilities st = Some p -> is_Some (arrays w !! p)) /\
    0 <= 1 << QuantumState.qubits st.

(** One single-qubit measurement per entry of the measurement list, in list
    order, each applied to the state the previous one returned. *)
Inductive measuredInOrder :
  list Measurement.t -> ref -> World -> list bool -> ref -> World -> Prop :=
| measured_none state w :
    measuredInOrder [] state w [] state w
| measured_next m ms state w state1 result w1 results state' w' :
    measure state (Measurement.qubit m) w = Ok ((state1, result), w1) ->
    measuredInOrder ms state1 w1 results state' w' ->
    measuredInOrder (m :: ms) state w (result :: results) state' w'.

(** The classical bits, each result stored at the classical index of its
    measurement entry. *)
Definition assignBits (ms : list Measurement.t) (results : list bool)
    (classical : BitArray) : BitArray :=
  foldl (fun classical '(m, result) => bit_store classical (Measurement.classical m) result)
        classical (zip ms results).

(** The matrix holds the [n] by [n] entries the loop reads. *)
Definition has_entries (matrix : list (list Complex.t)) (n : Z) : Prop :=
  forall r c, 0 <= r < n -> 0 <= c < n -> exists z, entry matrix r c = Ok z.

(** An operation carries the matrix its path reads: 2x2 on the single-qubit
    path, 4x4 on the two-qubit path. *)
Definition runnable (operation : CircuitOperation.t) : Prop :=
  let matrix := QuantumGate.matrix (CircuitOperation.gate operation) in
  (singleQubitCase operation = true -> has_entries matrix 2) /\
  (twoQubitCase operation = true -> has_entries matrix 4).

(** The circuit the application starts with: H on qubit 0, CNOT from 0 to 1,
    X on qubit 2, and all three qubits measured. *)
Definition default_circuit : QuantumCircuit.t :=
  QuantumCircuit.mk "default-circuit" 3
    [onQubit hadamard 0; controlled cnot 0 1; onQubit pauliX 2]
    [Measurement.mk 0 0; Measurement.mk 1 1; Measurement.mk 2 2].

Definition empty_world : World := quiet [] [] (fun _ => 0.5%float).

(** The key under which a basis index is recorded. *)
Definition keyOf (qubits outcome : Z) : string := padStart0 (toString2 outcome) qubits.

(** The value the [frequency] field holds after [c] shots have hit a key:
    it starts at 1 and each further hit stores [(frequency || 0) + 1]. *)
Fixpoint counter (c : nat) : float :=
  match c with
  | O => 0%float
  | S c' => (or_zero (Some (counter c')) + 1)%float
  end.

(** How many of the shots hit a key. *)
Definition hits (qubits : Z) (key : string) (outcomes : list Z) : nat :=
  length (filter (fun outcome => keyOf qubits outcome = key) outcomes).

(** The record after a run of shots. *)
Definition tally (qubits : Z) (probabilities : list float) (outcomes : list Z)
  : gmap string MeasurementResult.t :=
  foldl (fun results outcome => recordShot qubits probabilities outcome results)
        ∅ outcomes.

(** The outcomes of [n] shots drawn from position [start] of the random
    source. *)
Definition shotOutcomes (random : nat -> float) (start n : nat)
    (cumulativeProbs : list float) (dim : Z) : list Z :=
  (fun k => findOutcome (random (start + k)%nat) cumulativeProbs dim) <$> seq 0 n.

(** * Properties *)

(** ** The store monad *)

Ltac unfold_monad :=
  unfold mbind, mret, M_bind, M_ret, result_bind, result_ret, lift in *.

Lemma bind_Ok {A B} (m : M A) (k : A -> M B) w a w1 :
  m w = Ok (a, w1) -> (x ← m; k x) w = k a w1.
Proof. intros H. unfold_monad. by rewrite H. Qed.

Lemma bind_inv {A B} (m : M A) (k : A -> M B) w b w2 :
  (x ← m; k x) w = Ok (b, w2) ->
  exists a w1, m w = Ok (a, w1) /\ k a w1 = Ok (b, w2).
Proof.
  unfold_monad. destruct (m w) as [[a w1]|e]; [|discriminate].
  intros H. by exists a, w1.
Qed.

Lemma lift_inv {A} (r : Result A) w a w1 :
  lift r w = Ok (a, w1) -> r = Ok a /\ w1 = w.
Proof. unfold lift. destruct r; [|discriminate]. by intros [= -> ->]. Qed.

Lemma get_state_inv state w st w1 :
  get_state state w = Ok (st, w1) -> objects w !! state = Some st /\ w1 = w.
Proof.
  unfold get_state. destruct (objects w !! state); [|discriminate]. by intros [= -> ->].
Qed.

Lemma get_array_inv r w a w1 :
  get_array r w = Ok (a, w1) -> arrays w !! r = Some a /\ w1 = w.
Proof.
  unfold get_array. destruct (arrays w !! r); [|discriminate]. by intros [= -> ->].
Qed.

Lemma get_state_Ok state w st :
  objects w !! state = Some st -> get_state state w = Ok (st, w).
Proof. unfold get_state. by intros ->. Qed.

Lemma get_array_Ok r w a :
  arrays w !! r = Some a -> get_array r w = Ok (a, w).
Proof. unfold get_array. by intros ->. Qed.

Lemma preserves_refl w : preserves w w.
Proof. by split. Qed.

Lemma preserves_trans w1 w2 w3 : preserves w1 w2 -> preserves w2 w3 -> preserves w1 w3.
Proof. intros [A1 O1] [A2 O2]. split; eauto. Qed.

Lemma store_array_preserves a w : preserves w (store_array a w).
Proof.
  split; simpl; [|done]. intros r x Hr. by apply lookup_app_l_Some.
Qed.

Lemma store_state_preserves o w : preserves w (store_state o w).
Proof.
  split; simpl; [done|]. intros r x Hr. by apply lookup_app_l_Some.
Qed.

Lemma fresh_state_preserves qubits a w : preserves w (fresh_state qubits a w).
Proof.
  eapply preserves_trans; [apply store_array_preserves|apply store_state_preserves].
Qed.

Lemma amplitudes_preserved state w w' a :
  preserves w w' -> amplitudes state w = Some a -> amplitudes state w' = Some a.
Proof.
  intros [HA HO]. unfold amplitudes.
  destruct (objects w !! state) as [st|] eqn:E; [|done].
  rewrite (HO _ _ E). cbn. apply HA.
Qed.

Lemma amplitudes_fresh_state qubits a w :
  amplitudes (length (objects w)) (fresh_state qubits a w) = Some a.
Proof.
  unfold amplitudes, fresh_state. simpl.
  rewrite list_lookup_middle by done. simpl. by apply list_lookup_middle.
Qed.

Lemma objects_fresh_state qubits a w :
  objects (fresh_state qubits a w) !! length (objects w)
  = Some (QuantumState.mk qubits (length (arrays w)) None).
Proof. simpl. by apply list_lookup_middle. Qed.

(** ** What each engine operation does to the store *)

Lemma createState_Ok qubits w :
  0 <= 1 << qubits ->
  createState qubits w =
    Ok (length (objects w),
        fresh_state qubits (wr (replicate (Z.to_nat ((1 << qubits) * 2)) 0%float) 0 1) w).
Proof.
  intros Hdim. unfold createState, zeros. unfold_monad.
  destruct ((1 << qubits) * 2 <? 0) eqn:E; [lia|]. reflexivity.
Qed.

Lemma applyCNOT_Ok state controlQubit targetQubit w st vec :
  objects w !! state = Some st ->
  arrays w !! QuantumState.vector st = Some vec ->
  applyCNOT state controlQubit targetQubit w =
    Ok (length (objects w),
        fresh_state (QuantumState.qubits st)
          (foldl (applyCNOT_step controlQubit targetQubit) vec
                 (upto (1 << QuantumState.qubits st))) w).
Proof.
  intros Ho Hv. unfold applyCNOT.
  rewrite (bind_Ok _ _ _ _ _ (get_state_Ok _ _ _ Ho)).
  by rewrite (bind_Ok _ _ _ _ _ (get_array_Ok _ _ _ Hv)).
Qed.

Lemma applySingleQubitGate_Ok state matrix targetQubit w st vec result :
  objects w !! state = Some st ->
  arrays w !! QuantumState.vector st = Some vec ->
  forM (applySingleQubitGate_step matrix targetQubit vec)
       (upto (1 << QuantumState.qubits st)) (replicate (length vec) 0%float) = Ok result ->
  applySingleQubitGate state matrix targetQubit w =
    Ok (length (objects w), fresh_state (QuantumState.qubits st) result w).
Proof.
  intros Ho Hv Hloop. unfold applySingleQubitGate.
  rewrite (bind_Ok _ _ _ _ _ (get_state_Ok _ _ _ Ho)).
  rewrite (bind_Ok _ _ _ _ _ (get_array_Ok _ _ _ Hv)).
  rewrite Hloop. reflexivity.
Qed.

Lemma applyTwoQubitGate_Ok state matrix qubit1 qubit2 w st vec result :
  objects w !! state = Some st ->
  arrays w !! QuantumState.vector st = Some vec ->
  0 <= 1 << QuantumState.qubits st ->
  forM (applyTwoQubitGate_step matrix qubit1 qubit2 vec)
       (upto (1 << QuantumState.qubits st))
       (replicate (Z.to_nat ((1 << QuantumState.qubits st) * 2)) 0%float) = Ok result ->
  applyTwoQubitGate state matrix qubit1 qubit2 w =
    Ok (length (objects w), fresh_state (QuantumState.qubits st) result w).
Proof.
  intros Ho Hv Hdim Hloop. unfold applyTwoQubitGate.
  rewrite (bind_Ok _ _ _ _ _ (get_state_Ok _ _ _ Ho)).
  unfold zeros. destruct ((1 << QuantumState.qubits st) * 2 <? 0) eqn:E; [lia|].
  unfold_monad. unfold get_array. rewrite Hv, Hloop. reflexivity.
Qed.

(** The fallback neither reads nor writes the store; it logs one line. *)
Lemma applyGeneralGate_Ok state operation w :
  exists w', applyGeneralGate state operation w = Ok (state, w') /\
    arrays w' = arrays w /\ objects w' = objects w.
Proof. by eexists. Qed.

(** ** Dispatch of [applyGate] *)

(** An arity-1 gate with its one target and no control fails the first test
    (the number of targets equals the arity) and the two that follow. *)
Lemma singleQubit_operation_falls_through gate target params state w :
  QuantumGate.qubits gate = 1 ->
  applyGate state (CircuitOperation.mk gate [target] None params) w =
  applyGeneralGate state (CircuitOperation.mk gate [target] None params) w.
Proof.
  intros Harity. unfold applyGate, singleQubitCase, twoQubitCase, cnotCase. simpl.
  rewrite Harity. simpl. by rewrite andb_false_r.
Qed.

(** C1. Failing input: the one-qubit state |0> and Pauli-X on qubit 0.
    [applyGate] does not reach the single-qubit update: it returns the state
    it was given, whose amplitudes are still (1,0) at index 0 and (0,0) at
    index 1, where the specification expects (0,0) and (1,0). *)
Theorem applyGate_pauliX_leaves_zero_state (w : World) :
  exists state w1 w2,
    createState 1 w = Ok (state, w1) /\
    applyGate state (onQubit pauliX 0) w1 = Ok (state, w2) /\
    amplitudes state w2 = Some [1; 0; 0; 0]%float.
Proof.
  destruct (applyGeneralGate_Ok (length (objects w)) (onQubit pauliX 0)
              (fresh_state 1 [1; 0; 0; 0]%float w)) as (w2 & Hg & HA & HO).
  eexists _, _, w2. split; [by apply createState_Ok|]. split.
  - unfold onQubit. rewrite singleQubit_operation_falls_through by done. apply Hg.
  - unfold amplitudes. rewrite HA, HO. apply amplitudes_fresh_state.
Qed.

(** The update the specification describes is the one [applySingleQubitGate]
    performs when it is called directly: on |0> it yields |1>. *)
Lemma applySingleQubitGate_pauliX_flips (w : World) :
  exists state w1 state' w2,
    createState 1 w = Ok (state, w1) /\
    applySingleQubitGate state (QuantumGate.matrix pauliX) 0 w1 = Ok (state', w2) /\
    amplitudes state' w2 = Some [0; 0; 1; 0]%float.
Proof.
  eexists _, _, _, _. split; [by apply createState_Ok|]. split.
  - eapply (applySingleQubitGate_Ok _ _ _ _ _ [1; 0; 0; 0]%float [0; 0; 1; 0]%float).
    + apply objects_fresh_state.
    + simpl. by apply list_lookup_middle.
    + reflexivity.
  - apply amplitudes_fresh_state.
Qed.

(** ** The CNOT specialisation *)

(** On a two-qubit buffer the loop of [applyCNOT] with control 0 and target 1
    visits index 1 and swaps it with index 3, then visits index 3 and swaps
    it back with index 1. *)
Lemma applyCNOT_step_trace (a0 a1 a2 a3 a4 a5 a6 a7 : float) :
  let vec := [a0; a1; a2; a3; a4; a5; a6; a7] in
  applyCNOT_step 0 1 vec 0 = vec /\
  applyCNOT_step 0 1 vec 1 = [a0; a1; a6; a7; a4; a5; a2; a3] /\
  applyCNOT_step 0 1 [a0; a1; a6; a7; a4; a5; a2; a3] 2 = [a0; a1; a6; a7; a4; a5; a2; a3] /\
  applyCNOT_step 0 1 [a0; a1; a6; a7; a4; a5; a2; a3] 3 = vec.
Proof. by repeat split. Qed.

Lemma applyCNOT_loop_two_qubits (vec : TypedArray) :
  length vec = 8%nat ->
  foldl (applyCNOT_step 0 1) vec (upto 4) = vec.
Proof.
  intros Hlen.
  do 8 (destruct vec as [|? vec]; [discriminate|]).
  destruct vec; [|discriminate]. reflexivity.
Qed.

(** C2. For every two-qubit state, [applyGate] with the CNOT operation
    (control 0, target 1) takes the CNOT path and returns a state whose
    amplitude buffer equals the input buffer: the amplitudes at |10> and |11>
    (indices 1 and 3) are swapped twice. The specified truth table is not
    realised: |10> stays |10>. *)
Theorem applyGate_cnot_returns_input_amplitudes w state st vec :
  objects w !! state = Some st ->
  QuantumState.qubits st = 2 ->
  arrays w !! QuantumState.vector st = Some vec ->
  length vec = 8%nat ->
  exists state' w',
    applyGate state (controlled cnot 0 1) w = Ok (state', w') /\
    amplitudes state' w' = Some vec.
Proof.
  intros Ho Hq Hv Hlen.
  eexists _, _. split.
  - change (applyGate state (controlled cnot 0 1) w) with (applyCNOT state 0 1 w).
    by apply applyCNOT_Ok.
  - rewrite Hq. change (1 << 2) with 4.
    rewrite applyCNOT_loop_two_qubits by done.
    apply amplitudes_fresh_state.
Qed.

Lemma applyGate_cnot_on_10 :
  exists state' w',
    applyGate 0%nat (controlled cnot 0 1) world_10 = Ok (state', w') /\
    amplitudes state' w' = Some [0; 0; 1; 0; 0; 0; 0; 0]%float.
Proof.
  apply (applyGate_cnot_returns_input_amplitudes world_10 0%nat
           (QuantumState.mk 2 0 None)); reflexivity.
Defined.

(** ** The fallback path *)

(** C8. When none of the three tests of [applyGate] holds, the operation
    goes to [applyGeneralGate], which hands back the very state reference it
    received and leaves every typed array and state object as it was: the
    output amplitude buffer is the input amplitude buffer. *)
Theorem applyGate_fallback_returns_input state operation w :
  singleQubitCase operation = false ->
  twoQubitCase operation = false ->
  cnotCase operation = false ->
  exists w',
    applyGate state operation w = Ok (state, w') /\
    arrays w' = arrays w /\ objects w' = objects w /\
    amplitudes state w' = amplitudes state w.
Proof.
  intros H1 H2 H3. unfold applyGate. rewrite H1, H2, H3.
  destruct (applyGeneralGate_Ok state operation w) as (w' & Hg & HA & HO).
  exists w'. repeat split; try done. unfold amplitudes. by rewrite HA, HO.
Qed.

(** The shapes the specification names do fail the three tests: a three-qubit gate,
    a controlled single-qubit gate, and a CNOT with two controls. *)
Lemma fallback_shapes :
  let toffoli3 := CircuitOperation.mk toffoli [0; 1; 2] None None in
  let controlledH := controlled hadamard 0 1 in
  let twoControls := CircuitOperation.mk cnot [2] (Some [0; 1]) None in
  Forall (fun operation =>
            singleQubitCase operation = false /\
            twoQubitCase operation = false /\
            cnotCase operation = false)
         [toffoli3; controlledH; twoControls].
Proof. repeat constructor. Qed.

Lemma applyGate_toffoli_returns_input :
  exists w',
    applyGate 0%nat (CircuitOperation.mk toffoli [0; 1; 2] None None) world_000
      = Ok (0%nat, w') /\
    arrays w' = arrays world_000 /\ objects w' = objects world_000 /\
    amplitudes 0%nat w' = amplitudes 0%nat world_000.
Proof.
  apply (applyGate_fallback_returns_input 0%nat
           (CircuitOperation.mk toffoli [0; 1; 2] None None) world_000); reflexivity.
Defined.

(** ** Hadamard twice *)


(** ** Frame: what [applyGate] leaves alone *)

Lemma applySingleQubitGate_inv state matrix targetQubit w state' w' :
  applySingleQubitGate state matrix targetQubit w = Ok (state', w') ->
  exists st result,
    objects w !! state = Some st /\ state' = length (objects w) /\
    w' = fresh_state (QuantumState.qubits st) result w.
Proof.
  unfold applySingleQubitGate. intros H.
  apply bind_inv in H as (st & w1 & [Ho ->]%get_state_inv & H).
  apply bind_inv in H as (vec & w1 & [Hv ->]%get_array_inv & H).
  apply bind_inv in H as (result & w1 & [Hr ->]%lift_inv & H).
  injection H as <- <-. by eexists _, _.
Qed.

Lemma applyTwoQubitGate_inv state matrix qubit1 qubit2 w state' w' :
  applyTwoQubitGate state matrix qubit1 qubit2 w = Ok (state', w') ->
  exists st result,
    objects w !! state = Some st /\ state' = length (objects w) /\
    w' = fresh_state (QuantumState.qubits st) result w.
Proof.
  unfold applyTwoQubitGate. intros H.
  apply bind_inv in H as (st & w1 & [Ho ->]%get_state_inv & H).
  apply bind_inv in H as (zs & w1 & [Hz ->]%lift_inv & H).
  apply bind_inv in H as (vec & w1 & [Hv ->]%get_array_inv & H).
  apply bind_inv in H as (result & w1 & [Hr ->]%lift_inv & H).
  injection H as <- <-. by eexists _, _.
Qed.

Lemma applyCNOT_inv state controlQubit targetQubit w state' w' :
  applyCNOT state controlQubit targetQubit w = Ok (state', w') ->
  exists st result,
    objects w !! state = Some st /\ state' = length (objects w) /\
    w' = fresh_state (QuantumState.qubits st) result w.
Proof.
  unfold applyCNOT. intros H.
  apply bind_inv in H as (st & w1 & [Ho ->]%get_state_inv & H).
  apply bind_inv in H as (vec & w1 & [Hv ->]%get_array_inv & H).
  injection H as <- <-. by eexists _, _.
Qed.

(** C9. Whatever path [applyGate] takes, a successful call leaves every
    typed array and every state object of the store as it was before the
    call; in particular the amplitude buffer of the input state holds the
    values it held before. The three computing paths write into an array
    they allocate (the CNOT path into a copy), the fallback writes nothing. *)
Theorem applyGate_leaves_input_untouched state operation w state' w' :
  applyGate state operation w = Ok (state', w') ->
  preserves w w' /\
  forall a, amplitudes state w = Some a -> amplitudes state w' = Some a.
Proof.
  intros H.
  assert (preserves w w') as Hp.
  { unfold applyGate in H.
    destruct (singleQubitCase operation).
    { apply applySingleQubitGate_inv in H as (q & r & _ & _ & ->).
      apply fresh_state_preserves. }
    destruct (twoQubitCase operation).
    { apply applyTwoQubitGate_inv in H as (q & r & _ & _ & ->).
      apply fresh_state_preserves. }
    destruct (cnotCase operation).
    { apply applyCNOT_inv in H as (q & r & _ & _ & ->).
      apply fresh_state_preserves. }
    destruct (applyGeneralGate_Ok state operation w) as (w2 & Hg & HA & HO).
    rewrite Hg in H. injection H as _ <-.
    split; intros ? ?; by rewrite ?HA, ?HO. }
  split; [done|]. intros a. by apply amplitudes_preserved.
Qed.

(** The two-qubit path does compute: applied to |10> with the CNOT matrix it
    allocates the buffer of |11> and the caller's buffer still holds |10>. *)
Lemma applyGate_two_targets_keeps_caller_buffer :
  exists state' w',
    applyGate 0%nat (CircuitOperation.mk cnot [0; 1] None None) world_10
      = Ok (state', w') /\
    amplitudes state' w' = Some [0; 0; 0; 0; 0; 0; 1; 0]%float /\
    amplitudes 0%nat w' = Some [0; 0; 1; 0; 0; 0; 0; 0]%float.
Proof.
  eexists _, _. split; [vm_compute; reflexivity|]. split; [reflexivity|].
  match goal with
  | |- amplitudes _ ?w' = _ =>
      apply (proj2 (applyGate_leaves_input_untouched 0%nat
                      (CircuitOperation.mk cnot [0; 1] None None) world_10 1%nat w'
                      ltac:(vm_compute; reflexivity)))
  end.
  reflexivity.
Defined.

(** ** Comparison of floats *)

Lemma SFcompare_antisym a b : SFcompare b a = CompOpp <$> SFcompare a b.
Proof.
  destruct a as [[]|[]| |[] m1 e1], b as [[]|[]| |[] m2 e2]; try reflexivity;
    unfold SFcompare; change (Pos.compare_cont Eq) with Pos.compare;
    rewrite (Z.compare_antisym e2 e1), (Pos.compare_antisym m2 m1);
    destruct (e2 ?= e1); simpl; try reflexivity;
    destruct (m2 ?= m1)%positive; reflexivity.
Qed.

(** [x <= y] excludes [y < x]. *)
Lemma leb_true_ltb_false (x y : float) :
  (x <=? y)%float = true -> (y <? x)%float = false.
Proof.
  rewrite leb_spec, ltb_spec. unfold SFleb, SFltb.
  rewrite (SFcompare_antisym (Prim2SF x) (Prim2SF y)).
  destruct (SFcompare (Prim2SF x) (Prim2SF y)) as [[]|]; simpl; congruence.
Qed.

(** ** The binary search of [sampleMeasurements] *)

(** The loop ends within as many steps as the interval is wide. *)
Lemma binarySearch_terminates fuel random cumulativeProbs low high outcome :
  high - low + 1 <= Z.of_nat fuel ->
  is_Some (binarySearch fuel random cumulativeProbs low high outcome).
Proof.
  revert low high outcome.
  induction fuel as [|fuel IH]; intros low high outcome Hw; simpl.
  - destruct (low <=? high) eqn:E; [lia|]. by eexists.
  - destruct (low <=? high) eqn:E; [|by eexists].
    assert (low <= (low + high) / 2 <= high) by (split; [apply Z.div_le_lower_bound|apply Z.div_le_upper_bound]; lia).
    destruct (random <? rd cumulativeProbs ((low + high) / 2))%float; apply IH; lia.
Qed.

(** The index found is the initial one or lies in the interval searched. *)
Lemma binarySearch_range fuel random cumulativeProbs low high outcome found :
  binarySearch fuel random cumulativeProbs low high outcome = Some found ->
  found = outcome \/ low <= found <= high.
Proof.
  revert low high outcome.
  induction fuel as [|fuel IH]; intros low high outcome; simpl.
  - destruct (low <=? high); [discriminate|]. intros [= <-]. by left.
  - destruct (low <=? high) eqn:E; [|intros [= <-]; by left].
    assert (low <= (low + high) / 2 <= high) by (split; [apply Z.div_le_lower_bound|apply Z.div_le_upper_bound]; lia).
    destruct (random <? rd cumulativeProbs ((low + high) / 2))%float.
    + intros [->|?]%IH; right; lia.
    + intros [->|?]%IH; [by left|right; lia].
Qed.

(** When the draw is below no entry of the interval, the search never takes
    the branch that assigns [outcome]. *)
Lemma binarySearch_never_below fuel random cumulativeProbs low high outcome :
  (forall i, low <= i <= high -> (random <? rd cumulativeProbs i)%float = false) ->
  high - low + 1 <= Z.of_nat fuel ->
  binarySearch fuel random cumulativeProbs low high outcome = Some outcome.
Proof.
  revert low.
  induction fuel as [|fuel IH]; intros low Hall Hw; simpl.
  - destruct (low <=? high) eqn:E; [lia|]. done.
  - destruct (low <=? high) eqn:E; [|done].
    assert (low <= (low + high) / 2 <= high) by (split; [apply Z.div_le_lower_bound|apply Z.div_le_upper_bound]; lia).
    rewrite Hall by done. apply IH; [|lia].
    intros i Hi. apply Hall. lia.
Qed.

Lemma findOutcome_found random cumulativeProbs dim :
  binarySearch (Z.to_nat dim) random cumulativeProbs 0 (dim - 1) 0
  = Some (findOutcome random cumulativeProbs dim).
Proof.
  unfold findOutcome.
  destruct (binarySearch_terminates (Z.to_nat dim) random cumulativeProbs 0 (dim - 1) 0)
    as [found ->]; [lia|done].
Qed.

Lemma findOutcome_range random cumulativeProbs dim :
  0 < dim -> 0 <= findOutcome random cumulativeProbs dim < dim.
Proof.
  intros Hdim.
  destruct (binarySearch_range _ _ _ _ _ _ _ (findOutcome_found random cumulativeProbs dim));
    lia.
Qed.

Lemma concat_zeros_snoc n :
  String.concat "" (replicate n "0") +:+ "0" = String.concat "" (replicate (S n) "0").
Proof.
  induction n as [|n IH]; [done|].
  change (replicate (S (S n)) "0") with ("0" :: replicate (S n) "0").
  change (replicate (S n) "0") with ("0" :: replicate n "0") at 1.
  destruct n as [|n]; [done|].
  change (String.concat "" ("0" :: replicate (S n) "0"))
    with ("0" +:+ String.concat "" (replicate (S n) "0")).
  change (String.concat "" ("0" :: replicate (S (S n)) "0"))
    with ("0" +:+ String.concat "" (replicate (S (S n)) "0")).
  rewrite <- IH. reflexivity.
Qed.

Lemma key_of_index_zero qubits : padStart0 (toString2 0) qubits = all_zeros qubits.
Proof.
  unfold padStart0, all_zeros. simpl String.length.
  rewrite concat_zeros_snoc. f_equal. f_equal. lia.
Qed.

Lemma recordShot_records qubits probabilities outcome results :
  is_Some (recordShot qubits probabilities outcome results
             !! padStart0 (toString2 outcome) qubits).
Proof.
  unfold recordShot.
  destruct (results !! padStart0 (toString2 outcome) qubits);
    rewrite lookup_insert_eq; by eexists.
Qed.

(** C10. A shot whose draw is greater than or equal to every entry of the
    cumulative array never satisfies [random < cumulativeProbs[mid]]; the
    search ends with [outcome] still at its initial value 0, and the shot is
    recorded under the all-zeros bit-string. *)
Theorem draw_above_cumulative_records_index_zero
    random cumulativeProbs dim qubits probabilities results :
  (forall i, 0 <= i < dim -> (rd cumulativeProbs i <=? random)%float = true) ->
  binarySearch (Z.to_nat dim) random cumulativeProbs 0 (dim - 1) 0 = Some 0 /\
  findOutcome random cumulativeProbs dim = 0 /\
  is_Some (recordShot qubits probabilities (findOutcome random cumulativeProbs dim) results
             !! all_zeros qubits).
Proof.
  intros Hge.
  assert (binarySearch (Z.to_nat dim) random cumulativeProbs 0 (dim - 1) 0 = Some 0) as Hs.
  { apply binarySearch_never_below; [|lia].
    intros i Hi. apply leb_true_ltb_false, Hge. lia. }
  assert (findOutcome random cumulativeProbs dim = 0) as H0.
  { unfold findOutcome. by rewrite Hs. }
  repeat split; try done.
  rewrite H0, <- key_of_index_zero. apply recordShot_records.
Qed.

Lemma draw_in_rounding_gap_records_index_zero :
  binarySearch (Z.to_nat 4) (1 - 0x1p-27)%float gap_cumulative 0 (4 - 1) 0 = Some 0 /\
  findOutcome (1 - 0x1p-27)%float gap_cumulative 4 = 0 /\
  is_Some (recordShot 2 gap_probabilities
             (findOutcome (1 - 0x1p-27)%float gap_cumulative 4) ∅
             !! all_zeros 2).
Proof.
  apply (draw_above_cumulative_records_index_zero
           (1 - 0x1p-27)%float gap_cumulative 4 2 gap_probabilities ∅).
  intros i Hi.
  assert (i = 0 \/ i = 1 \/ i = 2 \/ i = 3) as [->|[->|[->| ->]]] by lia;
    vm_compute; reflexivity.
Defined.

(** The same shot through [sampleMeasurements]: the state has amplitude 0
    at |00>, and the one sample is reported as "00". *)
Lemma sampleMeasurements_in_rounding_gap :
  exists w',
    sampleMeasurements 0%nat 1 world_rounding_gap
    = Ok ({["00" := MeasurementResult.mk "00" 0%float (Some 1%float)]}, w').
Proof. eexists. vm_compute. reflexivity. Qed.

(** ** Typed-array reads and writes *)

Lemma length_wr (a : TypedArray) i x : length (wr a i x) = length a.
Proof. unfold wr. destruct (i <? 0); [done|]. apply length_insert. Qed.

Lemma rd_wr_ne (a : TypedArray) i k x : i <> k -> rd (wr a i x) k = rd a k.
Proof.
  intros Hne. unfold rd, wr.
  destruct (k <? 0) eqn:Ek; [done|]. destruct (i <? 0) eqn:Ei; [done|].
  rewrite list_lookup_insert_ne by lia. done.
Qed.

Lemma rd_replicate n (x : float) k :
  0 <= k < Z.of_nat n -> rd (replicate n x) k = x.
Proof.
  intros Hk. unfold rd. destruct (k <? 0) eqn:Ek; [lia|].
  rewrite lookup_replicate_2 by lia. done.
Qed.

Lemma rd_fmap (f : float -> float) (a : TypedArray) k :
  0 <= k < Z.of_nat (length a) -> rd (f <$> a) k = f (rd a k).
Proof.
  intros Hk. unfold rd. destruct (k <? 0) eqn:Ek; [lia|].
  rewrite list_lookup_fmap.
  destruct (lookup_lt_is_Some_2 a (Z.to_nat k)) as [x ->]; [lia|done].
Qed.

(** ** Single-qubit measurement *)

Lemma collapse_step_length vec qubit outcome acc i :
  length (collapse_step vec qubit outcome acc i).1 = length acc.1.
Proof.
  destruct acc as [nv m]. unfold collapse_step.
  destruct ((i >> qubit) .& 1 =? outcome); simpl; [|done].
  by rewrite !length_wr.
Qed.

Lemma collapse_length vec qubit outcome dim newVector :
  length (collapse vec qubit outcome dim newVector).1 = length newVector.
Proof.
  unfold collapse.
  change (length newVector) with (length (newVector, 0%float).1).
  generalize (upto dim) (newVector, 0%float).
  intros idxs. induction idxs as [|i idxs IH]; intros acc; simpl; [done|].
  by rewrite IH, collapse_step_length.
Qed.

(** The slots of a basis index that disagrees with the outcome are never
    written by the loop. *)
Lemma collapse_untouched vec qubit outcome dim newVector j k :
  (j >> qubit) .& 1 <> outcome ->
  k = j * 2 \/ k = j * 2 + 1 ->
  rd (collapse vec qubit outcome dim newVector).1 k = rd newVector k.
Proof.
  intros Hj Hk. unfold collapse.
  change (rd newVector k) with (rd (newVector, 0%float).1 k).
  generalize (upto dim) (newVector, 0%float).
  intros idxs. induction idxs as [|i idxs IH]; intros acc; simpl; [done|].
  rewrite IH. destruct acc as [nv m]. unfold collapse_step.
  destruct ((i >> qubit) .& 1 =? outcome) eqn:E; simpl; [|done].
  assert (i <> j) by (intros ->; lia).
  rewrite !rd_wr_ne by lia. done.
Qed.

Lemma calculateProbabilities_Ok state w st vec :
  objects w !! state = Some st ->
  arrays w !! QuantumState.vector st = Some vec ->
  0 <= 1 << QuantumState.qubits st ->
  calculateProbabilities state w =
    Ok (length (arrays w),
        store_array (probabilitiesOf vec (1 << QuantumState.qubits st)
                       (replicate (Z.to_nat (1 << QuantumState.qubits st)) 0%float)) w).
Proof.
  intros Ho Hv Hdim. unfold calculateProbabilities.
  rewrite (bind_Ok _ _ _ _ _ (get_state_Ok _ _ _ Ho)).
  unfold zeros. destruct (1 << QuantumState.qubits st <? 0) eqn:E; [lia|].
  unfold_monad. unfold get_array. by rewrite Hv.
Qed.

(** [measure] on a well-formed state never throws. Its boolean is decided by
    the draw and the probabilities (cached, or computed and then cached);
    the state object it allocates holds the collapsed buffer. *)
Lemma measure_Ok state qubit w st vec :
  objects w !! state = Some st ->
  arrays w !! QuantumState.vector st = Some vec ->
  (forall p, QuantumState.probabilities st = Some p -> is_Some (arrays w !! p)) ->
  0 <= 1 << QuantumState.qubits st ->
  exists probabilities w' v,
    let dim := 1 << QuantumState.qubits st in
    let outcome :=
      if (draws w (drawn w) <? probabilityOfOne probabilities qubit dim)%float
      then 1 else 0 in
    measure state qubit w = Ok ((length (objects w), outcome =? 1), w') /\
    objects w' !! length (objects w)
      = Some (QuantumState.mk (QuantumState.qubits st) v None) /\
    arrays w' !! v = Some (collapsed vec qubit outcome dim) /\
    drawn w' = S (drawn w).
Proof.
  intros Ho Hv Hp Hdim. unfold measure.
  rewrite (bind_Ok _ _ _ _ _ (get_state_Ok _ _ _ Ho)).
  assert (zeros ((1 << QuantumState.qubits st) * 2)
          = Ok (replicate (Z.to_nat ((1 << QuantumState.qubits st) * 2)) 0%float)) as Hz.
  { unfold zeros. destruct ((1 << QuantumState.qubits st) * 2 <? 0) eqn:E; [lia|done]. }
  destruct (QuantumState.probabilities st) as [p|] eqn:Ep.
  - destruct (Hp p eq_refl) as [probs Hprobs].
    exists probs. unfold collapsed, retainedMass.
    destruct (collapse vec qubit
                (if (draws w (drawn w) <? probabilityOfOne probs qubit
                                            (1 << QuantumState.qubits st))%float
                 then 1 else 0)
                (1 << QuantumState.qubits st)
                (replicate (Z.to_nat ((1 << QuantumState.qubits st) * 2)) 0%float))
      as [nv m] eqn:Ec.
    eexists _, _.
    unfold_monad. unfold get_array, Math_random. rewrite Hprobs. simpl.
    rewrite Hz. simpl. rewrite Hv, Ec. simpl.
    split; [reflexivity|]. split; [by apply list_lookup_middle|].
    split; [by apply list_lookup_middle|done].
  - exists (probabilitiesOf vec (1 << QuantumState.qubits st)
              (replicate (Z.to_nat (1 << QuantumState.qubits st)) 0%float)).
    unfold collapsed, retainedMass.
    destruct (collapse vec qubit
                (if (draws w (drawn w) <?
                     probabilityOfOne
                       (probabilitiesOf vec (1 << QuantumState.qubits st)
                          (replicate (Z.to_nat (1 << QuantumState.qubits st)) 0%float))
                       qubit (1 << QuantumState.qubits st))%float
                 then 1 else 0)
                (1 << QuantumState.qubits st)
                (replicate (Z.to_nat ((1 << QuantumState.qubits st) * 2)) 0%float))
      as [nv m] eqn:Ec.
    eexists _, _.
    unfold_monad. rewrite (calculateProbabilities_Ok _ _ _ _ Ho Hv Hdim).
    unfold set_probabilities, get_array, Math_random. simpl.
    rewrite Ho. simpl. rewrite list_lookup_middle by done.
    rewrite Hz. simpl. rewrite (lookup_app_l_Some _ _ _ _ Hv), Ec. simpl.
    rewrite length_insert.
    split; [reflexivity|].
    split; [by apply list_lookup_middle, eq_sym, length_insert|].
    split; [by apply list_lookup_middle|done].
Qed.

(** Dividing by zero leaves no finite number. *)
Lemma div_by_zero (x : float) :
  (x / 0)%float = nan \/ (x / 0)%float = infinity \/ (x / 0)%float = neg_infinity.
Proof.
  rewrite <- (SF2Prim_Prim2SF (x / 0)), div_spec.
  change (Prim2SF 0) with (S754_zero false).
  destruct (Prim2SF x) as [[]|[]| |[] m e]; vm_compute; auto.
Qed.

(** C3 (amended). [measure] has no failure path for a degenerate collapse:
    on every well-formed state it returns a state and an outcome. When the
    retained mass of the drawn outcome is 0, every slot of the returned
    buffer is the quotient of a number by the square root of 0: none is
    finite, and both slots of every basis index whose measured bit differs
    from the outcome are NaN. *)
Theorem measure_zero_mass_returns_NaN state qubit w st vec :
  objects w !! state = Some st ->
  arrays w !! QuantumState.vector st = Some vec ->
  (forall p, QuantumState.probabilities st = Some p -> is_Some (arrays w !! p)) ->
  0 <= 1 << QuantumState.qubits st ->
  exists state' measured w' vec',
    measure state qubit w = Ok ((state', measured), w') /\
    amplitudes state' w' = Some vec' /\
    let dim := 1 << QuantumState.qubits st in
    let outcome := if measured then 1 else 0 in
    (retainedMass vec qubit outcome dim = 0%float ->
     (forall k, 0 <= k < dim * 2 ->
        rd vec' k = nan \/ rd vec' k = infinity \/ rd vec' k = neg_infinity) /\
     (forall i, 0 <= i < dim -> (i >> qubit) .& 1 <> outcome ->
        rd vec' (i * 2) = nan /\ rd vec' (i * 2 + 1) = nan)).
Proof.
  intros Ho Hv Hp Hdim.
  destruct (measure_Ok state qubit w st vec Ho Hv Hp Hdim)
    as (probs & w' & v & Hm & Hs & Ha & _). cbv zeta in Hm, Ha.
  set (dim := 1 << QuantumState.qubits st) in *.
  set (outcome := if (draws w (drawn w) <? probabilityOfOne probs qubit dim)%float
                  then 1 else 0) in *.
  exists (length (objects w)), (outcome =? 1), w', (collapsed vec qubit outcome dim).
  split; [done|]. split; [unfold amplitudes; by rewrite Hs|]. cbv zeta.
  assert ((if outcome =? 1 then 1 else 0) = outcome) as ->.
  { unfold outcome. by destruct (_ <? _)%float. }
  intros Hmass. unfold collapsed. rewrite Hmass.
  change (sqrt 0) with 0%float.
  assert (forall k, 0 <= k < dim * 2 ->
            0 <= k < Z.of_nat (length (collapse vec qubit outcome dim
                                         (replicate (Z.to_nat (dim * 2)) 0%float)).1))
    as Hin.
  { intros k Hk. rewrite collapse_length, length_replicate. lia. }
  split.
  - intros k Hk. rewrite rd_fmap by auto. apply div_by_zero.
  - intros i Hi Hbit.
    assert (forall k, k = i * 2 \/ k = i * 2 + 1 ->
              rd ((fun x => x / 0)%float <$>
                  (collapse vec qubit outcome dim (replicate (Z.to_nat (dim * 2)) 0%float)).1) k
              = nan) as Hk.
    { intros k Hk. rewrite rd_fmap by (apply Hin; lia).
      rewrite (collapse_untouched _ _ _ _ _ i) by done.
      rewrite rd_replicate by lia. reflexivity. }
    split; apply Hk; [by left|by right].
Qed.

(** C3, counterexample. On that state [measure] draws outcome 0, whose
    retained mass is 0, signals nothing, and returns a state whose eight
    amplitude slots are all NaN. *)
Lemma measure_degenerate_collapse_is_not_signalled :
  exists w',
    measure 0%nat 0 world_rounding_gap = Ok ((1%nat, false), w') /\
    retainedMass [0; 0; sqrt 0.1; 0; 0; 0; sqrt 0.9; 0]%float 0 0 4 = 0%float /\
    amplitudes 1%nat w' = Some [nan; nan; nan; nan; nan; nan; nan; nan].
Proof.
  eexists. split; [vm_compute; reflexivity|]. split; vm_compute; reflexivity.
Qed.

Lemma measure_on_rounding_gap :
  exists state' measured w' vec',
    measure 0%nat 0 world_rounding_gap = Ok ((state', measured), w') /\
    amplitudes state' w' = Some vec' /\
    let outcome := if measured then 1 else 0 in
    (retainedMass [0; 0; sqrt 0.1; 0; 0; 0; sqrt 0.9; 0]%float 0 outcome 4 = 0%float ->
     (forall k, 0 <= k < 4 * 2 ->
        rd vec' k = nan \/ rd vec' k = infinity \/ rd vec' k = neg_infinity) /\
     (forall i, 0 <= i < 4 -> (i >> 0) .& 1 <> outcome ->
        rd vec' (i * 2) = nan /\ rd vec' (i * 2 + 1) = nan)).
Proof.
  apply (measure_zero_mass_returns_NaN 0%nat 0 world_rounding_gap
           (QuantumState.mk 2 0 None) [0; 0; sqrt 0.1; 0; 0; 0; sqrt 0.9; 0]%float).
  - reflexivity.
  - reflexivity.
  - intros p. discriminate.
  - vm_compute. discriminate.
Defined.

(** ** Well-formed states *)

Lemma well_formed_fresh_state qubits a w :
  0 <= 1 << qubits -> well_formed (length (objects w)) (fresh_state qubits a w).
Proof.
  intros Hdim. eexists _, a. split; [apply objects_fresh_state|].
  split; [simpl; by apply list_lookup_middle|]. by split.
Qed.

Lemma createState_well_formed qubits w state w' :
  createState qubits w = Ok (state, w') -> well_formed state w'.
Proof.
  unfold createState. intros H.
  apply bind_inv in H as (zs & w1 & [Hz ->]%lift_inv & H).
  injection H as <- <-.
  apply well_formed_fresh_state.
  unfold zeros in Hz. destruct ((1 << qubits) * 2 <? 0) eqn:E; [discriminate|]. lia.
Qed.

Lemma applyGate_well_formed state operation w state' w' :
  well_formed state w ->
  applyGate state operation w = Ok (state', w') ->
  well_formed state' w'.
Proof.
  intros (st & vec & Ho & Hv & Hp & Hdim) H. unfold applyGate in H.
  destruct (singleQubitCase operation).
  { apply applySingleQubitGate_inv in H as (st' & r & Ho' & -> & ->).
    apply well_formed_fresh_state. congruence. }
  destruct (twoQubitCase operation).
  { apply applyTwoQubitGate_inv in H as (st' & r & Ho' & -> & ->).
    apply well_formed_fresh_state. congruence. }
  destruct (cnotCase operation).
  { apply applyCNOT_inv in H as (st' & r & Ho' & -> & ->).
    apply well_formed_fresh_state. congruence. }
  destruct (applyGeneralGate_Ok state operation w) as (w2 & Hg & HA & HO).
  rewrite Hg in H. injection H as <- <-.
  exists st, vec. by rewrite HA, HO.
Qed.

Lemma prepare_well_formed circuit w state w' :
  prepare circuit w = Ok (state, w') -> well_formed state w'.
Proof.
  unfold prepare. intros H.
  apply bind_inv in H as (state0 & w0 & Hc%createState_well_formed & H).
  revert state0 w0 Hc H.
  induction (QuantumCircuit.operations circuit) as [|operation ops IH];
    intros state0 w0 Hc H; simpl in H.
  - by injection H as <- <-.
  - apply bind_inv in H as (state1 & w1 & Hg & H).
    eapply IH; [|done]. by eapply applyGate_well_formed.
Qed.

(** ** Single-shot execution *)

Lemma measure_well_formed state qubit w :
  well_formed state w ->
  exists state' result w',
    measure state qubit w = Ok ((state', result), w') /\ well_formed state' w'.
Proof.
  intros (st & vec & Ho & Hv & Hp & Hdim).
  destruct (measure_Ok state qubit w st vec Ho Hv Hp Hdim)
    as (probs & w' & v & Hm & Hs & Ha & _).
  eexists _, _, w'. split; [apply Hm|].
  eexists _, _. split; [apply Hs|]. split; [apply Ha|]. by split.
Qed.

Lemma measurement_loop ms state classical w :
  well_formed state w ->
  exists results state' w',
    measuredInOrder ms state w results state' w' /\
    length results = length ms /\
    forW (fun m '(state, classical) =>
            '(newState, result) ← measure state (Measurement.qubit m);
            mret (newState, bit_store classical (Measurement.classical m) result))
         ms (state, classical) w
      = Ok ((state', assignBits ms results classical), w').
Proof.
  revert state classical w.
  induction ms as [|m ms IH]; intros state classical w Hwf.
  - exists [], state, w. split; [constructor|]. by split.
  - destruct (measure_well_formed state (Measurement.qubit m) w Hwf)
      as (state1 & result & w1 & Hm & Hwf1).
    destruct (IH state1 (bit_store classical (Measurement.classical m) result) w1 Hwf1)
      as (results & state' & w' & Hchain & Hlen & Hloop).
    exists (result :: results), state', w'.
    split; [by econstructor|]. split; [simpl; by rewrite Hlen|].
    cbn [forW]. unfold_monad. rewrite Hm. apply Hloop.
Qed.

Lemma singleShot_Ok ms state w :
  well_formed state w ->
  exists results state' w',
    measuredInOrder ms state w results state' w' /\
    length results = length ms /\
    let bitString :=
      bit_join (assignBits ms results (replicate (length ms) (Some false))) in
    singleShot ms state w
      = Ok ((state', {[bitString := MeasurementResult.mk bitString 1%float (Some 1%float)]}),
            w').
Proof.
  intros Hwf.
  destruct (measurement_loop ms state (replicate (length ms) (Some false)) w Hwf)
    as (results & state' & w' & Hchain & Hlen & Hloop).
  exists results, state', w'. split; [done|]. split; [done|].
  cbv zeta. unfold singleShot. unfold_monad. rewrite Hloop.
  by rewrite insert_empty.
Qed.

(** What [runCircuit] does with [shots = 1] once its first part has run. *)
Lemma runCircuit_single_shot_after circuit w state0 w0 :
  (performance_now;; prepare circuit) w = Ok (state0, w0) ->
  exists result w' results w1,
    runCircuit circuit (Some 1) w = Ok (result, w') /\
    measuredInOrder (QuantumCircuit.measurements circuit) state0 w0
      results (SimulationResult.finalState result) w1 /\
    length results = length (QuantumCircuit.measurements circuit) /\
    let bitString :=
      bit_join (assignBits (QuantumCircuit.measurements circuit) results
                  (replicate (length (QuantumCircuit.measurements circuit)) (Some false))) in
    SimulationResult.measurements result
      = {[bitString := MeasurementResult.mk bitString 1%float (Some 1%float)]} /\
    size (SimulationResult.measurements result) = 1%nat.
Proof.
  intros Hprep.
  apply bind_inv in Hprep as (startTime & wt & Hnow & Hprep).
  destruct (singleShot_Ok (QuantumCircuit.measurements circuit) state0 w0
              (prepare_well_formed _ _ _ _ Hprep))
    as (results & state' & w1 & Hchain & Hlen & Hshot). cbv zeta in Hshot.
  eexists _, _, results, w1. split.
  - unfold runCircuit. cbn [default].
    rewrite (bind_Ok _ _ _ _ _ Hnow), (bind_Ok _ _ _ _ _ Hprep).
    change (1 =? 0) with false. change (1 =? 1) with true. cbv iota.
    rewrite (bind_Ok _ _ _ _ _ Hshot). reflexivity.
  - cbn [SimulationResult.finalState SimulationResult.measurements].
    split; [done|]. split; [done|]. split; [done|]. apply map_size_singleton.
Qed.

(** ** When the operations of a circuit run *)

Lemma and_1_range x : x .& 1 = 0 \/ x .& 1 = 1.
Proof.
  unfold Int32.and. change (Int32.wrap 1) with (Z.ones 1).
  rewrite Z.land_ones by lia.
  pose proof (Z.mod_pos_bound (Int32.wrap x) (2 ^ 1)). lia.
Qed.

Lemma forM_Ok {A S} (body : A -> S -> Result S) xs s :
  (forall x s', exists s'', body x s' = Ok s'') ->
  exists s'', forM body xs s = Ok s''.
Proof.
  intros Hbody. revert s. induction xs as [|x xs IH]; intros s; simpl.
  - by eexists.
  - destruct (Hbody x s) as [s' ->]. apply IH.
Qed.

Lemma applySingleQubitGate_step_Ok matrix targetQubit vec i result :
  has_entries matrix 2 ->
  exists result', applySingleQubitGate_step matrix targetQubit vec i result = Ok result'.
Proof.
  intros Hm. unfold applySingleQubitGate_step.
  destruct (Hm 0 0) as [m00 E00]; [lia..|]. destruct (Hm 0 1) as [m01 E01]; [lia..|].
  destruct (Hm 1 0) as [m10 E10]; [lia..|]. destruct (Hm 1 1) as [m11 E11]; [lia..|].
  rewrite E00, E01, E10, E11.
  destruct ((i >> targetQubit) .& 1 =? 0); by eexists.
Qed.

Lemma applyTwoQubitGate_step_Ok matrix qubit1 qubit2 vec i result :
  has_entries matrix 4 ->
  exists result', applyTwoQubitGate_step matrix qubit1 qubit2 vec i result = Ok result'.
Proof.
  intros Hm. unfold applyTwoQubitGate_step.
  assert (0 <= (((i >> qubit1) .& 1) << 1) .| ((i >> qubit2) .& 1) < 4) as Hidx.
  { destruct (and_1_range (i >> qubit1)) as [-> | ->],
             (and_1_range (i >> qubit2)) as [-> | ->]; by vm_compute. }
  revert Hidx. generalize ((((i >> qubit1) .& 1) << 1) .| ((i >> qubit2) .& 1)).
  intros matrixIdx Hidx.
  change (upto 4) with [0; 1; 2; 3]. unfold forM, applyTwoQubitGate_inner.
  destruct (Hm 0 matrixIdx) as [z0 ->]; [lia..|].
  destruct (Hm 1 matrixIdx) as [z1 ->]; [lia..|].
  destruct (Hm 2 matrixIdx) as [z2 ->]; [lia..|].
  destruct (Hm 3 matrixIdx) as [z3 ->]; [lia..|].
  by eexists.
Qed.

Lemma applyGate_returns state operation w :
  well_formed state w -> runnable operation ->
  exists state' w', applyGate state operation w = Ok (state', w').
Proof.
  intros (st & vec & Ho & Hv & Hp & Hdim) [H1 H2]. unfold applyGate.
  destruct (singleQubitCase operation).
  { destruct (forM_Ok (applySingleQubitGate_step
                         (QuantumGate.matrix (CircuitOperation.gate operation))
                         (as_int32 (CircuitOperation.targets operation !! 0%nat)) vec)
                (upto (1 << QuantumState.qubits st)) (replicate (length vec) 0%float))
      as [result Hr].
    { intros. by apply applySingleQubitGate_step_Ok, H1. }
    eexists _, _. by eapply applySingleQubitGate_Ok. }
  destruct (twoQubitCase operation).
  { destruct (forM_Ok (applyTwoQubitGate_step
                         (QuantumGate.matrix (CircuitOperation.gate operation))
                         (as_int32 (CircuitOperation.targets operation !! 0%nat))
                         (as_int32 (CircuitOperation.targets operation !! 1%nat)) vec)
                (upto (1 << QuantumState.qubits st))
                (replicate (Z.to_nat ((1 << QuantumState.qubits st) * 2)) 0%float))
      as [result Hr].
    { intros. by apply applyTwoQubitGate_step_Ok, H2. }
    eexists _, _. by eapply applyTwoQubitGate_Ok. }
  destruct (cnotCase operation).
  { eexists _, _. by eapply applyCNOT_Ok. }
  destruct (applyGeneralGate_Ok state operation w) as (w' & Hg & _). by eexists _, _.
Qed.

Lemma prepare_returns circuit w :
  0 <= 1 << QuantumCircuit.numQubits circuit ->
  Forall runnable (QuantumCircuit.operations circuit) ->
  exists state w', prepare circuit w = Ok (state, w').
Proof.
  intros Hdim Hops. unfold prepare.
  rewrite (bind_Ok _ _ _ _ _ (createState_Ok _ w Hdim)).
  assert (well_formed (length (objects w))
            (fresh_state (QuantumCircuit.numQubits circuit)
               (wr (replicate (Z.to_nat ((1 << QuantumCircuit.numQubits circuit) * 2)) 0%float)
                   0 1) w)) as Hwf by (by apply well_formed_fresh_state).
  revert Hwf. generalize (length (objects w)).
  generalize (fresh_state (QuantumCircuit.numQubits circuit)
               (wr (replicate (Z.to_nat ((1 << QuantumCircuit.numQubits circuit) * 2)) 0%float)
                   0 1) w).
  induction Hops as [|operation ops Hop Hops IH]; intros w0 state0 Hwf; simpl.
  - by eexists _, _.
  - destruct (applyGate_returns state0 operation w0 Hwf Hop) as (state1 & w1 & Hg).
    unfold_monad. rewrite Hg. apply IH. by eapply applyGate_well_formed.
Qed.

(** Every gate of the catalogue modelled here is runnable on every target
    list. *)
Lemma catalogue_runnable targets controls params :
  Forall (fun gate => runnable (CircuitOperation.mk gate targets controls params))
         [identity; pauliX; pauliY; pauliZ; hadamard; sGate; tGate; cnot; swap; toffoli].
Proof.
  assert (forall n r c, 0 <= r < n -> 0 <= c < n -> n <= 4 ->
            exists r' c', r = Z.of_nat r' /\ c = Z.of_nat c' /\ (r' < 4)%nat /\ (c' < 4)%nat)
    as Hnat.
  { intros n r c Hr Hc Hn. exists (Z.to_nat r), (Z.to_nat c). lia. }
  repeat constructor; unfold singleQubitCase, twoQubitCase; simpl; try discriminate;
    intros _ r c Hr Hc;
    destruct (Hnat _ r c Hr Hc ltac:(lia)) as (r' & c' & -> & -> & Hr' & Hc');
    unfold entry; rewrite !Nat2Z.id;
    do 4 (try destruct r' as [|r']); try lia;
    do 4 (try destruct c' as [|c']); try lia; by eexists.
Qed.

(** C6. For every circuit whose dimension is representable and whose
    operations carry the matrices their paths read, [runCircuit] with
    [shots = 1] returns. After the initial state and the operations
    (yielding [state0] in [w0]) it has performed one single-qubit measurement
    for every entry of [circuit.measurements], in list order, each on the
    state returned by the one before; the final state is the last state of
    that chain; and the measurement map holds exactly one entry, keyed by
    the joined classical bits, whose probability is 1.0. *)
Theorem runCircuit_single_shot circuit w :
  0 <= 1 << QuantumCircuit.numQubits circuit ->
  Forall runnable (QuantumCircuit.operations circuit) ->
  exists state0 w0 result w' results w1,
    (performance_now;; prepare circuit) w = Ok (state0, w0) /\
    runCircuit circuit (Some 1) w = Ok (result, w') /\
    measuredInOrder (QuantumCircuit.measurements circuit) state0 w0
      results (SimulationResult.finalState result) w1 /\
    length results = length (QuantumCircuit.measurements circuit) /\
    let bitString :=
      bit_join (assignBits (QuantumCircuit.measurements circuit) results
                  (replicate (length (QuantumCircuit.measurements circuit)) (Some false))) in
    SimulationResult.measurements result
      = {[bitString := MeasurementResult.mk bitString 1%float (Some 1%float)]} /\
    size (SimulationResult.measurements result) = 1%nat.
Proof.
  intros Hdim Hops.
  destruct (prepare_returns circuit
              {| arrays := arrays w; objects := objects w; console := console w;
                 draws := draws w; drawn := drawn w;
                 clock := clock w; ticks := S (ticks w) |} Hdim Hops)
    as (state0 & w0 & Hprep).
  assert ((performance_now;; prepare circuit) w = Ok (state0, w0)) as Hfirst.
  { unfold_monad. unfold performance_now. apply Hprep. }
  destruct (runCircuit_single_shot_after circuit w state0 w0 Hfirst)
    as (result & w' & results & w1 & H).
  by exists state0, w0, result, w', results, w1.
Qed.

Lemma runCircuit_single_shot_default :
  exists state0 w0 result w' results w1,
    (performance_now;; prepare default_circuit) empty_world = Ok (state0, w0) /\
    runCircuit default_circuit (Some 1) empty_world = Ok (result, w') /\
    measuredInOrder (QuantumCircuit.measurements default_circuit) state0 w0
      results (SimulationResult.finalState result) w1 /\
    length results = length (QuantumCircuit.measurements default_circuit) /\
    let bitString :=
      bit_join (assignBits (QuantumCircuit.measurements default_circuit) results
                  (replicate (length (QuantumCircuit.measurements default_circuit))
                             (Some false))) in
    SimulationResult.measurements result
      = {[bitString := MeasurementResult.mk bitString 1%float (Some 1%float)]} /\
    size (SimulationResult.measurements result) = 1%nat.
Proof.
  apply (runCircuit_single_shot default_circuit empty_world).
  - vm_compute. discriminate.
  - repeat constructor; intros H; vm_compute in H; discriminate H.
Defined.

(** On that circuit the single shot reports the bit-string "000". *)
Lemma runCircuit_single_shot_default_value :
  exists result w',
    runCircuit default_circuit (Some 1) empty_world = Ok (result, w') /\
    SimulationResult.measurements result
      = {["000" := MeasurementResult.mk "000" 1%float (Some 1%float)]}.
Proof. eexists _, _. split; vm_compute; reflexivity. Qed.

(** ** Multi-shot sampling *)

Lemma counter_first : counter 1 = 1%float.
Proof. reflexivity. Qed.

(** Each key of the record holds the count of the shots that hit it, kept
    in the [frequency] field, and no other key is present. *)
Lemma tally_lookup qubits probabilities outcomes key :
  match tally qubits probabilities outcomes !! key with
  | Some found =>
      MeasurementResult.state found = key /\
      MeasurementResult.frequency found = Some (counter (hits qubits key outcomes)) /\
      (0 < hits qubits key outcomes)%nat
  | None => hits qubits key outcomes = 0%nat
  end.
Proof.
  unfold tally, hits.
  induction outcomes as [|outcome outcomes IH] using rev_ind;
    [cbn [foldl]; by rewrite lookup_empty|].
  rewrite foldl_snoc, filter_app, length_app. unfold recordShot at 1.
  fold (keyOf qubits outcome).
  destruct (decide (keyOf qubits outcome = key)) as [Heq|Hne].
  - rewrite filter_cons_True by done. cbn [filter list_filter length].
    rewrite Heq.
    destruct (foldl _ ∅ outcomes !! key) as [found|] eqn:E.
    + rewrite lookup_insert_eq. simpl. destruct IH as (Hs & Hf & Hpos).
      split; [done|]. split; [|lia].
      rewrite Hf, Nat.add_1_r. reflexivity.
    + rewrite lookup_insert_eq. simpl. rewrite IH. simpl. split; [done|]. split; [done|lia].
  - rewrite filter_cons_False by done. cbn [filter list_filter length]. rewrite Nat.add_0_r.
    destruct (foldl _ ∅ outcomes !! keyOf qubits outcome) as [found|] eqn:E;
      rewrite lookup_insert_ne by done; apply IH.
Qed.

(** The shot loop of [sampleMeasurements] consumes one draw per shot and
    leaves the store alone. *)
Lemma shot_loop qubits probabilities cumulativeProbs dim (shots : list Z) results w :
  exists w',
    forW (fun (shot : Z) results =>
            random ← Math_random;
            let outcome := findOutcome random cumulativeProbs dim in
            mret (recordShot qubits probabilities outcome results))
         shots results w
    = Ok (foldl (fun results outcome => recordShot qubits probabilities outcome results)
                results
                (shotOutcomes (draws w) (drawn w) (length shots) cumulativeProbs dim),
          w') /\
    arrays w' = arrays w /\ objects w' = objects w /\
    drawn w' = (drawn w + length shots)%nat.
Proof.
  revert results w. induction shots as [|shot shots IH]; intros results w.
  - exists w. simpl. repeat split; try done; lia.
  - cbn [forW]. unfold_monad. unfold Math_random at 1.
    set (w1 := {| arrays := arrays w; objects := objects w; console := console w;
                  draws := draws w; drawn := S (drawn w);
                  clock := clock w; ticks := ticks w |}).
    destruct (IH (recordShot qubits probabilities
                    (findOutcome (draws w (drawn w)) cumulativeProbs dim) results) w1)
      as (w' & Hloop & HA & HO & Hd).
    exists w'. split; [|repeat split; try done; simpl in Hd; simpl; lia].
    rewrite Hloop. do 2 f_equal.
    unfold shotOutcomes. simpl length. cbn [seq fmap list_fmap foldl].
    rewrite Nat.add_0_r. f_equal.
    rewrite <- seq_shift, <- list_fmap_compose. apply list_fmap_ext.
    intros _ k _. simpl. f_equal. f_equal. lia.
Qed.

(** [sampleMeasurements] on a well-formed state: it returns, and every
    reported frequency is the counter of the hits of its key divided by
    [shots]. *)
Lemma sampleMeasurements_Ok state shots w st vec :
  objects w !! state = Some st ->
  arrays w !! QuantumState.vector st = Some vec ->
  0 <= 1 << QuantumState.qubits st ->
  exists w',
    let dim := 1 << QuantumState.qubits st in
    let probabilities := probabilitiesOf vec dim (replicate (Z.to_nat dim) 0%float) in
    let cumulativeProbs := cumulativeOf probabilities dim (replicate (Z.to_nat dim) 0%float) in
    let outcomes :=
      shotOutcomes (draws w) (drawn w) (Z.to_nat shots) cumulativeProbs dim in
    sampleMeasurements state shots w
    = Ok (toFrequency shots <$> tally (QuantumState.qubits st) probabilities outcomes, w').
Proof.
  intros Ho Hv Hdim. cbv zeta. unfold sampleMeasurements.
  rewrite (bind_Ok _ _ _ _ _ (calculateProbabilities_Ok _ _ _ _ Ho Hv Hdim)).
  erewrite bind_Ok; last first.
  { apply get_array_Ok. simpl. by apply list_lookup_middle. }
  erewrite bind_Ok; last by apply get_state_Ok.
  unfold zeros. destruct (1 << QuantumState.qubits st <? 0) eqn:E; [lia|].
  destruct (shot_loop (QuantumState.qubits st)
              (probabilitiesOf vec (1 << QuantumState.qubits st)
                 (replicate (Z.to_nat (1 << QuantumState.qubits st)) 0%float))
              (cumulativeOf
                 (probabilitiesOf vec (1 << QuantumState.qubits st)
                    (replicate (Z.to_nat (1 << QuantumState.qubits st)) 0%float))
                 (1 << QuantumState.qubits st)
                 (replicate (Z.to_nat (1 << QuantumState.qubits st)) 0%float))
              (1 << QuantumState.qubits st) (upto shots) ∅
              (store_array
                 (probabilitiesOf vec (1 << QuantumState.qubits st)
                    (replicate (Z.to_nat (1 << QuantumState.qubits st)) 0%float)) w))
    as (w' & Hloop & _).
  exists w'. unfold_monad. rewrite Hloop.
  unfold upto. rewrite length_seqZ. reflexivity.
Qed.

(** The hits of the recorded keys add up to the number of shots. *)
Lemma sum_indicator (key : string) (keys : list string) :
  NoDup keys -> key ∈ keys ->
  sum_list ((fun k => if decide (key = k) then 1 else 0)%nat <$> keys) = 1%nat.
Proof.
  induction 1 as [|k keys Hk Hnd IH]; [by intros ?%elem_of_nil|].
  intros [->|Hin]%elem_of_cons; simpl.
  - rewrite decide_True by done. f_equal.
    clear IH Hnd. induction keys as [|k' keys IH]; [done|]. simpl.
    rewrite decide_False by (intros ->; apply Hk; left).
    apply IH. intros ?. apply Hk. by right.
  - rewrite decide_False by (intros ->; done). by apply IH.
Qed.

Lemma sum_list_add (f g : string -> nat) (keys : list string) :
  sum_list ((fun k => f k + g k)%nat <$> keys)
  = (sum_list (f <$> keys) + sum_list (g <$> keys))%nat.
Proof.
  induction keys as [|k keys IH]; [done|].
  rewrite !fmap_cons. cbn [sum_list_with]. rewrite IH. unfold id. lia.
Qed.

Lemma hits_cons qubits key outcome outcomes :
  hits qubits key (outcome :: outcomes)
  = ((if decide (keyOf qubits outcome = key) then 1 else 0) + hits qubits key outcomes)%nat.
Proof.
  unfold hits. destruct (decide (keyOf qubits outcome = key)).
  - by rewrite filter_cons_True.
  - by rewrite filter_cons_False.
Qed.

Lemma sum_hits qubits (keys : list string) outcomes :
  NoDup keys ->
  (forall outcome, outcome ∈ outcomes -> keyOf qubits outcome ∈ keys) ->
  sum_list ((fun key => hits qubits key outcomes) <$> keys) = length outcomes.
Proof.
  intros Hnd. induction outcomes as [|outcome outcomes IH]; intros Hin.
  - unfold hits. simpl. clear. induction keys as [|k keys IHk]; [done|]. apply IHk.
  - rewrite (list_fmap_ext (fun key => hits qubits key (outcome :: outcomes))
               (fun key => ((if decide (keyOf qubits outcome = key) then 1 else 0)
                            + hits qubits key outcomes)%nat) keys)
      by (intros; apply hits_cons).
    rewrite sum_list_add, IH by (intros; apply Hin; by right).
    rewrite sum_indicator by (done || apply Hin; left). done.
Qed.

Lemma tally_hits_total qubits probabilities outcomes :
  sum_list ((fun key => hits qubits key outcomes)
              <$> (map_to_list (tally qubits probabilities outcomes)).*1)
  = length outcomes.
Proof.
  apply sum_hits; [apply NoDup_fst_map_to_list|].
  intros outcome Hin.
  pose proof (tally_lookup qubits probabilities outcomes (keyOf qubits outcome)) as H.
  destruct (tally qubits probabilities outcomes !! keyOf qubits outcome) as [found|] eqn:E.
  - apply list_elem_of_fmap. exists (keyOf qubits outcome, found).
    split; [done|]. by apply elem_of_map_to_list.
  - exfalso. unfold hits in H.
    apply length_zero_iff_nil in H.
    assert (outcome ∈ filter (fun o => keyOf qubits o = keyOf qubits outcome) outcomes) as Hf
      by (by apply list_elem_of_filter).
    rewrite H in Hf. by apply elem_of_nil in Hf.
Qed.

(** The probability stored with a new key is read inside the array: the
    index found lies in [0, dim) and the array has [dim] entries. *)
Lemma probabilitiesOf_length vec dim (probabilities : list float) :
  length (probabilitiesOf vec dim probabilities) = length probabilities.
Proof.
  unfold probabilitiesOf. generalize (upto dim). intros idxs. revert probabilities.
  induction idxs as [|i idxs IH]; intros probabilities; simpl; [done|].
  by rewrite IH, length_wr.
Qed.

Lemma recorded_probability_in_range vec dim random cumulativeProbs :
  0 < dim ->
  0 <= findOutcome random cumulativeProbs dim
    < Z.of_nat (length (probabilitiesOf vec dim (replicate (Z.to_nat dim) 0%float))).
Proof.
  intros Hdim. rewrite probabilitiesOf_length, length_replicate.
  pose proof (findOutcome_range random cumulativeProbs dim Hdim). lia.
Qed.

